(** * MT-SICS: a shallow embedding of the Go package [MT_SICS]

    The package drives a Mettler Toledo balance over a serial line.  Every
    operation is an application of [DirectCommand] (write a command line,
    read until a regular expression matches or five seconds have passed);
    [WeightOnKey] adds a read loop of its own.

    The embedding follows [MT_SICS.go] function by function:
    - a [[]byte] is a [list ascii], a Go [string] a [string];
    - the connection ([io.ReadWriteCloser]) is explicit state: the clock, the
      reads the line is going to deliver, the outcome of the writes still to
      come and the log of everything written;
    - [error] values are data, [nil] is [None];
    - a run-time panic (index out of range) is an outcome of its own. *)

From Stdlib Require Import ZArith NArith String Ascii List Bool Lia.
From Stdlib Require Import DecimalString SpecFloat.
Import ListNotations.

Set Implicit Arguments.

(** ** Bytes and strings *)

Definition bytes := list ascii.

Definition bytes_of_string : string -> bytes := list_ascii_of_string.
Definition string_of_bytes : bytes -> string := string_of_list_ascii.

Definition CR : ascii := "013"%char.
Definition LF : ascii := "010"%char.
Definition NUL : ascii := "000"%char.
Definition CRLF : string := String CR (String LF EmptyString).

(** [make([]byte, n)]: [n] zero bytes. *)
Definition make (n : nat) : bytes := repeat NUL n.

(** Go's [copy(dst, src)], which is what a [Read(buf)] does with the bytes it
    received: the first [min (len dst) (len src)] bytes of [dst] are
    replaced, the rest of [dst] stays, the length of [dst] does not change. *)
Definition copy (dst src : bytes) : bytes :=
  firstn (length dst) src ++ skipn (length src) dst.

(** ** Errors, outcomes *)

Inductive numErr := ErrSyntax | ErrRange.

Inductive error :=
| errorString (msg : string)                      (* errors.New, fmt.Errorf *)
| NumError (Func Num : string) (Err : numErr).    (* *strconv.NumError *)

Definition EOF : error := errorString "EOF".

(** What a call does: it returns, or it panics. *)
Inductive outcome (A : Type) :=
| Returns (a : A)
| Panics (msg : string).
Arguments Panics {A} msg.

(** [s[i]] on a slice of strings. *)
Definition index (s : list string) (i : nat) : outcome string :=
  match nth_error s i with
  | Some x => Returns x
  | None => Panics "index out of range"
  end.

(** ** Package regexp, for the patterns this package compiles

    The patterns of [MT_SICS.go] use literals, character classes given by
    ranges, concatenation, [+], [?] and capture groups, and nothing else.
    Matching is leftmost-first with greedy repetition, as in Go. *)
Module Regexp.

Inductive syntax : Type :=
| Empty
| Lit (c : ascii)
| Class (ranges : list (ascii * ascii))
| Cat (r1 r2 : syntax)
| Plus (r : syntax)
| Quest (r : syntax)
| Cap (i : nat) (r : syntax).

Definition in_range (c : ascii) (lohi : ascii * ascii) : bool :=
  (N_of_ascii (fst lohi) <=? N_of_ascii c)%N && (N_of_ascii c <=? N_of_ascii (snd lohi))%N.

Definition in_class (ranges : list (ascii * ascii)) (c : ascii) : bool :=
  existsb (in_range c) ranges.

(** Concatenation of a list of expressions, and a literal string. *)
Definition Seq (rs : list syntax) : syntax := fold_right Cat Empty rs.
Definition Str (s : string) : syntax := Seq (map Lit (bytes_of_string s)).

(** Capture registers: group number to captured text. *)
Definition captures := nat -> bytes.
Definition no_captures : captures := fun _ => [].
Definition set_capture (i : nat) (w : bytes) (c : captures) : captures :=
  fun j => if Nat.eqb j i then w else c j.

(** The text between two positions of the input, each given by what is
    left to read there. *)
Definition consumed (s s' : bytes) : bytes := firstn (length s - length s') s.

Definition cont := bytes -> captures -> option captures.

(** The rounds of a [+]: one more round of [step], then as many further
    rounds as the rest allows, as long as each round consumes input, and
    fewer when the rest fails.  A round cannot consume more than what is
    left, so [fuel] above the length of the input never runs out. *)
Fixpoint rounds (step : bytes -> captures -> cont -> option captures) (k : cont)
         (fuel : nat) (s0 : bytes) (c0 : captures) {struct fuel} : option captures :=
  match fuel with
  | O => None
  | S fuel' =>
      step s0 c0 (fun s1 c1 =>
        if (length s1 <? length s0)%nat then
          match rounds step k fuel' s1 c1 with
          | Some res => Some res
          | None => k s1 c1
          end
        else k s1 c1)
  end.

(** Backtracking matcher in continuation-passing style: [run r s c k] matches
    [r] at the head of [s] and hands what is left and the captures to [k];
    the first success wins, [?] and [+] are greedy. *)
Fixpoint run (r : syntax) (s : bytes) (c : captures) (k : cont) {struct r}
  : option captures :=
  match r with
  | Empty => k s c
  | Lit a =>
      match s with
      | x :: s' => if Ascii.eqb x a then k s' c else None
      | [] => None
      end
  | Class ranges =>
      match s with
      | x :: s' => if in_class ranges x then k s' c else None
      | [] => None
      end
  | Cat r1 r2 => run r1 s c (fun s1 c1 => run r2 s1 c1 k)
  | Quest r1 =>
      match run r1 s c k with
      | Some res => Some res
      | None => k s c
      end
  | Plus r1 => rounds (run r1) k (S (length s)) s c
  | Cap i r1 => run r1 s c (fun s1 c1 => k s1 (set_capture i (consumed s s1) c1))
  end.

(** Unanchored search: the leftmost position where the expression matches.
    Group 0 is the whole match. *)
Fixpoint search (r : syntax) (s : bytes) : option captures :=
  match run (Cap 0 r) s no_captures (fun _ c => Some c) with
  | Some c => Some c
  | None =>
      match s with
      | [] => None
      | _ :: s' => search r s'
      end
  end.

(** A compiled expression: its source text, its syntax tree and the number
    of its capture groups. *)
Record Regexp := MustCompile {
  expr : string;
  prog : syntax;
  numSubexp : nat
}.

(** [re.String()] *)
Definition String (re : Regexp) : string := expr re.

(** [re.doExecute]: the engine behind both [Match] and the [Find] family. *)
Definition doExecute (re : Regexp) (b : bytes) : option captures :=
  search (prog re) b.

(** [re.Match(b)] *)
Definition Match (re : Regexp) (b : bytes) : bool :=
  match doExecute re b with
  | Some _ => true
  | None => false
  end.

(** [re.FindSubmatch(b)]: [nil] when there is no match, else the whole match
    followed by the text of each group. *)
Definition FindSubmatch (re : Regexp) (b : bytes) : list bytes :=
  match doExecute re b with
  | Some c => map c (seq 0 (S (numSubexp re)))
  | None => []
  end.

(** [re.FindStringSubmatch(s)] *)
Definition FindStringSubmatch (re : Regexp) (s : string) : list string :=
  map string_of_bytes (FindSubmatch re (bytes_of_string s)).

(** What the expressions mean, independently of the matcher: [Sem r w c c']
    says that [r] matches exactly the text [w] and on the way turns the
    captures [c] into [c']. *)
Inductive Sem : syntax -> bytes -> captures -> captures -> Prop :=
| SemEmpty c : Sem Empty [] c c
| SemLit a c : Sem (Lit a) [a] c c
| SemClass ranges x c : in_class ranges x = true -> Sem (Class ranges) [x] c c
| SemCat r1 r2 w1 w2 c c1 c2 :
    Sem r1 w1 c c1 -> Sem r2 w2 c1 c2 -> Sem (Cat r1 r2) (w1 ++ w2) c c2
| SemQuestNone r c : Sem (Quest r) [] c c
| SemQuestSome r w c c1 : Sem r w c c1 -> Sem (Quest r) w c c1
| SemPlusOne r w c c1 : Sem r w c c1 -> Sem (Plus r) w c c1
| SemPlusMore r w1 w2 c c1 c2 :
    Sem r w1 c c1 -> Sem (Plus r) w2 c1 c2 -> Sem (Plus r) (w1 ++ w2) c c2
| SemCap i r w c c1 : Sem r w c c1 -> Sem (Cap i r) w c (set_capture i w c1).

(** An expression without groups leaves the captures alone (see [Sem_groupless]). *)
Fixpoint groupless (r : syntax) : bool :=
  match r with
  | Empty | Lit _ | Class _ => true
  | Cat r1 r2 => groupless r1 && groupless r2
  | Plus r1 | Quest r1 => groupless r1
  | Cap _ _ => false
  end.

(** A successful run has matched some text in front and succeeded in the
    continuation on the rest. *)
Definition sound_at (r : syntax) : Prop :=
  forall s c k res, run r s c k = Some res ->
    exists w s' c', s = w ++ s' /\ Sem r w c c' /\ k s' c' = Some res.

(** Conversely, if the expression matches a text in front and the
    continuation cannot fail on the rest, the run succeeds (with the first
    match the search order finds, which may be another one). *)
Definition complete_at (r : syntax) : Prop :=
  forall w c c', Sem r w c c' ->
    forall s' c0 k, (forall c1, k s' c1 <> None) -> run r (w ++ s') c0 k <> None.

(** The language of an expression: the texts it matches. *)
Definition Lang (r : syntax) (w : bytes) : Prop := exists c c', Sem r w c c'.

(** Character classes of the patterns. *)
Definition digit : syntax := Class [("0"%char, "9"%char)].
Definition letter : syntax := Class [("a"%char, "z"%char); ("A"%char, "Z"%char)].
Definition AL : syntax := Class [("A"%char, "A"%char); ("L"%char, "L"%char)].

(** [(-?[0-9]+\.[0-9]+)] and [([a-zA-Z]+)] as groups 1 and 2. *)
Definition number : syntax :=
  Seq [Quest (Lit "-"%char); Plus digit; Lit "."%char; Plus digit].
Definition value_and_unit : syntax :=
  Seq [Plus (Lit " "%char); Cap 1 number; Lit " "%char; Cap 2 (Plus letter)].

End Regexp.

(** ** Package strconv: [FormatFloat] and [ParseFloat] on [float64]

    A [float64] is a [spec_float] of the standard library (sign, 53-bit
    mantissa, exponent), so its value is exact and both conversions are
    integer arithmetic. *)
Module Strconv.

Definition float64 := spec_float.

Definition string_of_N (n : N) : string := NilZero.string_of_uint (N.to_uint n).

(** [strconv.Itoa] *)
Definition Itoa (i : Z) : string :=
  match i with
  | Zneg p => ("-" ++ string_of_N (Npos p))%string
  | _ => string_of_N (Z.to_N i)
  end.

Definition zeros (n : nat) : string := string_of_bytes (repeat "0"%char n).

(** [n] in decimal, on at least [width] digits. *)
Definition pad (width : nat) (n : N) : string :=
  let d := string_of_N n in
  (zeros (width - String.length d) ++ d)%string.

(** The integer nearest to [m * 2^e * 10^prec], ties to even. *)
Definition scaled (m : positive) (e : Z) (prec : nat) : Z :=
  let n := (Z.pos m * 10 ^ Z.of_nat prec)%Z in
  match e with
  | Z0 => n
  | Zpos _ => (n * 2 ^ e)%Z
  | Zneg p =>
      let d := (2 ^ Z.pos p)%Z in
      let q := (n / d)%Z in
      let r := (n mod d)%Z in
      match (2 * r ?= d)%Z with
      | Lt => q
      | Gt => (q + 1)%Z
      | Eq => if Z.even q then q else (q + 1)%Z
      end
  end.

Definition fixed (neg : bool) (n : Z) (prec : nat) : string :=
  let p := (10 ^ Z.of_nat prec)%Z in
  ((if neg then "-" else "")
     ++ string_of_N (Z.to_N (n / p))
     ++ (match prec with
         | O => ""
         | _ => "." ++ pad prec (Z.to_N (n mod p))
         end))%string.

(** [strconv.FormatFloat(f, 'f', prec, 64)] for [prec >= 0]: no exponent,
    [prec] digits after the point, the exact value rounded to nearest
    even. *)
Definition FormatFloat (f : float64) (prec : nat) : string :=
  match f with
  | S754_nan => "NaN"
  | S754_infinity false => "+Inf"
  | S754_infinity true => "-Inf"
  | S754_zero s => fixed s 0 prec
  | S754_finite s m e => fixed s (scaled m e prec) prec
  end.

(** *** ParseFloat *)

Definition is_digit (c : ascii) : bool :=
  (48 <=? N_of_ascii c)%N && (N_of_ascii c <=? 57)%N.

Definition digit_val (c : ascii) : N := (N_of_ascii c - 48)%N.

(** What the scan of a mantissa has seen so far. *)
Record mantissa := {
  mant : N;            (* the digits read, as one integer *)
  sawdot : bool;
  sawdigits : bool;
  fracDigits : nat     (* digits read after the point *)
}.

(** The digit loop of [readFloat]: digits and at most one point. *)
Fixpoint scan (s : bytes) (m : mantissa) : mantissa * bytes :=
  match s with
  | [] => (m, [])
  | c :: s' =>
      if Ascii.eqb c "."%char then
        if sawdot m then (m, s)
        else scan s' {| mant := mant m; sawdot := true;
                        sawdigits := sawdigits m; fracDigits := fracDigits m |}
      else if is_digit c then
        scan s' {| mant := 10 * mant m + digit_val c; sawdot := sawdot m;
                   sawdigits := true;
                   fracDigits := if sawdot m then S (fracDigits m) else fracDigits m |}
      else (m, s)
  end.

Fixpoint scan_digits (s : bytes) (acc : N) : N * bytes :=
  match s with
  | c :: s' => if is_digit c then scan_digits s' (10 * acc + digit_val c)%N else (acc, s)
  | [] => (acc, [])
  end.

(** The optional exponent: [e] or [E], an optional sign, at least one
    digit.  [None] is a syntax error. *)
Definition scan_exponent (s : bytes) : option (Z * bytes) :=
  match s with
  | c :: s' =>
      if Ascii.eqb c "e"%char || Ascii.eqb c "E"%char then
        let '(esign, s1) :=
          match s' with
          | "+"%char :: s1 => (1%Z, s1)
          | "-"%char :: s1 => ((-1)%Z, s1)
          | _ => (1%Z, s')
          end in
        match s1 with
        | d :: _ =>
            if is_digit d then
              let '(e, rest) := scan_digits s1 0%N in
              Some ((esign * Z.of_N e)%Z, rest)
            else None
        | [] => None
        end
      else Some (0%Z, s)
  | [] => Some (0%Z, [])
  end.

Definition lower (c : ascii) : ascii :=
  let n := N_of_ascii c in
  if (65 <=? n)%N && (n <=? 90)%N then ascii_of_N (n + 32) else c.

Definition eq_fold (s : bytes) (t : string) : bool :=
  String.eqb (string_of_bytes (map lower s)) t.

(** An optional sign in front. *)
Definition sign_of (b : bytes) : bool * bytes :=
  match b with
  | c :: t =>
      if Ascii.eqb c "+"%char then (false, t)
      else if Ascii.eqb c "-"%char then (true, t)
      else (false, b)
  | [] => (false, b)
  end.

(** [special]: the infinities, with an optional sign, and NaN, without;
    whatever the case of the letters. *)
Definition special (s : bytes) : option float64 :=
  let '(neg, t) := sign_of s in
  if eq_fold t "inf" || eq_fold t "infinity" then Some (S754_infinity neg)
  else if eq_fold s "nan" then Some S754_nan
  else None.

Definition mantissa0 : mantissa :=
  {| mant := 0; sawdot := false; sawdigits := false; fracDigits := 0 |}.

(** [readFloat] on the whole of [b]: the sign, the digits as an integer and
    the power of ten to scale them by; [None] when [b] is not a decimal
    number from end to end. *)
Definition readFloat (b : bytes) : option (bool * N * Z) :=
  let '(neg, digits) := sign_of b in
  let '(m, rest) := scan digits mantissa0 in
  if sawdigits m then
    match scan_exponent rest with
    | Some (e, []) => Some (neg, mant m, (e - Z.of_nat (fracDigits m))%Z)
    | _ => None
    end
  else None.

(** Half an ulp above the largest [float64]: from here on a value rounds to
    an infinity. *)
Definition overflow_threshold : Z := (2 ^ 1024 - 2 ^ 970)%Z.

(** Is [m * 10^e] at or beyond the threshold? *)
Definition overflows (m : N) (e : Z) : bool :=
  match e with
  | Zneg p => (overflow_threshold * 10 ^ Z.pos p <=? Z.of_N m)%Z
  | _ => (overflow_threshold <=? Z.of_N m * 10 ^ e)%Z
  end.

(** The [float64] nearest to [m * 10^e], ties to even. *)
Definition nearest (neg : bool) (m : N) (e : Z) : float64 :=
  match m with
  | N0 => S754_zero neg
  | Npos p =>
      match e with
      | Zneg q =>
          let '(mz, ez, lz) := SFdiv_core_binary 53 1024 (Z.pos p) 0 (10 ^ Z.pos q) 0 in
          binary_round_aux 53 1024 neg mz ez lz
      | _ => binary_round 53 1024 neg (Z.to_pos (Z.pos p * 10 ^ e)) 0
      end
  end.

(** [strconv.ParseFloat(s, 64)] on decimal input: an optional sign, digits
    with at most one point, an optional exponent; and the infinities and
    NaN.  Hexadecimal mantissas and underscores between digits, which Go
    accepts as well, are not covered: no pattern of this package can
    capture them, and they are reported here as syntax errors. *)
Definition ParseFloat (s : string) : float64 * option error :=
  let b := bytes_of_string s in
  match special b with
  | Some f => (f, None)
  | None =>
      match readFloat b with
      | None => (S754_zero false, Some (NumError "ParseFloat" s ErrSyntax))
      | Some (neg, m, e) =>
          if overflows m e then
            (S754_infinity neg, Some (NumError "ParseFloat" s ErrRange))
          else (nearest neg m e, None)
      end
  end.

End Strconv.

(** ** Package time: durations are [int64] nanoseconds *)
Module Time.

Definition Duration := Z.
Definition Second : Duration := 1000000000%Z.
Definition maxDuration : Duration := (2 ^ 63 - 1)%Z.
Definition minDuration : Duration := (- 2 ^ 63)%Z.

(** [time.Since(start)] when the clock shows [now]: the difference,
    saturated to the range of a [Duration]. *)
Definition Since (now start : Z) : Duration :=
  Z.max minDuration (Z.min maxDuration (now - start)).

End Time.

(** ** The connection

    An [io.ReadWriteCloser] seen from the package: each [Read] blocks for
    some time and then delivers bytes or fails, each [Write] succeeds or
    fails.  The state holds what the line is going to do and what has been
    done to it.  The clock is the one [time.Now] and [time.Since] read; it
    moves while a [Read] blocks, by the latency of that read, and the rest of
    the code takes no time. *)
Module Conn.

Inductive ReadEvent :=
| Delivers (latency : N) (data : bytes)
| Fails (latency : N) (e : error).

Definition latency (ev : ReadEvent) : Z :=
  match ev with
  | Delivers l _ => Z.of_N l
  | Fails l _ => Z.of_N l
  end.

Record t := Build {
  now : Z;                          (* the clock, in nanoseconds *)
  incoming : list ReadEvent;        (* the reads to come, in order *)
  wresults : list (option error);   (* the outcome of the writes to come *)
  written : list bytes              (* every write so far, oldest first *)
}.

(** [connection.Write(p)].  Once the scripted outcomes are used up, writes
    succeed. *)
Definition Write (c : t) (p : bytes) : option error * t :=
  match wresults c with
  | [] => (None, Build (now c) (incoming c) [] (written c ++ [p]))
  | r :: rs => (r, Build (now c) (incoming c) rs (written c ++ [p]))
  end.

(** What one [Read(buf)] leaves in [buf], and its error. *)
Definition receive (ev : ReadEvent) (buf : bytes) : bytes * option error :=
  match ev with
  | Delivers _ data => (copy buf data, None)
  | Fails _ e => (buf, Some e)
  end.

(** [connection.Read(buf)].  A line with nothing more to deliver is at its
    end: [io.EOF]. *)
Definition Read (c : t) (buf : bytes) : bytes * option error * t :=
  match incoming c with
  | [] => (buf, Some EOF, c)
  | ev :: evs =>
      (receive ev buf, Build (now c + latency ev) evs (wresults c) (written c))
  end.

(** What the line does once [incoming] is used up.  [Read] above takes it to
    be closed: it returns [io.EOF] at once.  A port that is open and silent
    does not return at all: [Connect] opens it with [MinimumReadSize: 4] and
    no time-out between bytes, so a [Read] blocks until bytes arrive. *)
Inductive ending := Closed | Silent.

(** [connection.Read(buf)] on a line with the given ending; [None] is a
    [Read] that never returns. *)
Definition Read_on (line : ending) (c : t) (buf : bytes) : option (bytes * option error * t) :=
  match incoming c, line with
  | [], Silent => None
  | _, _ => Some (Read c buf)
  end.

End Conn.

(** ** Package MT_SICS *)
Module MT_SICS.

Import Conn.

(** [type Measurement struct { Weight float64; Unit string }]; the fields
    live in a module of their own, the package has a function [Weight]
    too. *)
Module Measurement.
Record t := Build {
  Weight : Strconv.float64;
  Unit : string
}.
(** [Measurement{}] *)
Definition zero : t := Build (S754_zero false) "".
End Measurement.

Definition quote : string := String "034"%char EmptyString.

(** *** DirectCommand *)

Definition timeout : Time.Duration := (5 * Time.Second)%Z.

(** How the read loop of [DirectCommand] ends: by its condition, with the
    buffer and the flag, or by a failed read. *)
Inductive awaited :=
| LoopExit (buf : bytes) (match_ : bool) (evs : list ReadEvent) (now : Z)
| ReadFailed (e : error) (evs : list ReadEvent) (now : Z).

(** [for !match && time.Since(start) < timeout { _, err = connection.Read(buf); ... }]
    by recursion on the reads to come; [evs] and [now] are the connection's
    [incoming] and [now]. *)
Fixpoint await (regex : Regexp.Regexp) (start : Z) (evs : list ReadEvent) (now : Z)
         (buf : bytes) (match_ : bool) {struct evs} : awaited :=
  if negb match_ && (Time.Since now start <? timeout)%Z then
    match evs with
    | [] => ReadFailed EOF [] now
    | ev :: evs' =>
        match receive ev buf with
        | (_, Some e) => ReadFailed e evs' (now + latency ev)
        | (buf', None) =>
            await regex start evs' (now + latency ev) buf' (Regexp.Match regex buf')
        end
    end
  else LoopExit buf match_ evs now.

Definition DirectCommand (connection : Conn.t) (command : string) (regex : Regexp.Regexp)
  : bytes * option error * Conn.t :=
  (* Write *)
  let '(err, c) := Write connection (bytes_of_string (command ++ CRLF)) in
  match err with
  | Some e => ([], Some e, c)
  | None =>
      (* Read (until match or timeout) *)
      let buf := make 128 in
      let start := now c in
      match await regex start (incoming c) (now c) buf false with
      | ReadFailed e evs t => ([], Some e, Build t evs (wresults c) (written c))
      | LoopExit buf match_ evs t =>
          let err :=
            if match_ then None
            else Some (errorString
                         ("command '" ++ command ++ "' timed-out, want: "
                            ++ Regexp.String regex ++ ", got: " ++ string_of_bytes buf)) in
          (buf, err, Build t evs (wresults c) (written c))
      end
  end.

(** The same loop and the same call on a line whose ending is given: the
    deadline is looked at between two reads only, so a [Read] that does not
    return keeps the call from returning, [None]. *)
Fixpoint await_on (line : ending) (regex : Regexp.Regexp) (start : Z)
         (evs : list ReadEvent) (now : Z) (buf : bytes) (match_ : bool)
         {struct evs} : option awaited :=
  if negb match_ && (Time.Since now start <? timeout)%Z then
    match evs with
    | [] =>
        match line with
        | Closed => Some (ReadFailed EOF [] now)
        | Silent => None
        end
    | ev :: evs' =>
        match receive ev buf with
        | (_, Some e) => Some (ReadFailed e evs' (now + latency ev))
        | (buf', None) =>
            await_on line regex start evs' (now + latency ev) buf' (Regexp.Match regex buf')
        end
    end
  else Some (LoopExit buf match_ evs now).

Definition DirectCommand_on (line : ending) (connection : Conn.t) (command : string)
           (regex : Regexp.Regexp) : option (bytes * option error * Conn.t) :=
  (* Write *)
  let '(err, c) := Write connection (bytes_of_string (command ++ CRLF)) in
  match err with
  | Some e => Some ([], Some e, c)
  | None =>
      (* Read (until match or timeout) *)
      let buf := make 128 in
      let start := now c in
      match await_on line regex start (incoming c) (now c) buf false with
      | None => None
      | Some (ReadFailed e evs t) => Some ([], Some e, Build t evs (wresults c) (written c))
      | Some (LoopExit buf match_ evs t) =>
          let err :=
            if match_ then None
            else Some (errorString
                         ("command '" ++ command ++ "' timed-out, want: "
                            ++ Regexp.String regex ++ ", got: " ++ string_of_bytes buf)) in
          Some (buf, err, Build t evs (wresults c) (written c))
      end
  end.

(** *** The operations that are one DirectCommand *)

Definition SetTarget (connection : Conn.t) (target : Strconv.float64) (unit : string)
           (upperTolerance lowerTolerance : Strconv.float64) (relativeTolerance : bool)
  : option error * Conn.t :=
  let regex := Regexp.MustCompile "A10 A" (Regexp.Str "A10 A") 0 in
  let targetString := ("A10 0 " ++ Strconv.FormatFloat target 2 ++ " " ++ unit ++ "")%string in
  let '(_, err, c1) := DirectCommand connection targetString regex in
  match err with
  | Some e => (Some e, c1)
  | None =>
      let unit := if relativeTolerance then "%"%string else unit in
      let upperToleranceString :=
        ("A10 1 " ++ Strconv.FormatFloat upperTolerance 2 ++ " " ++ unit ++ "")%string in
      let '(_, err, c2) := DirectCommand c1 upperToleranceString regex in
      match err with
      | Some e => (Some e, c2)
      | None =>
          let lowerToleranceString :=
            ("A10 2 " ++ Strconv.FormatFloat lowerTolerance 2 ++ " " ++ unit ++ "")%string in
          let '(_, err, c3) := DirectCommand c2 lowerToleranceString regex in
          (err, c3)
      end
  end.

Definition SetResultID (connection : Conn.t) (label value : string) : option error * Conn.t :=
  let msgString := ("A36 1 " ++ quote ++ label ++ quote ++ " " ++ quote ++ value ++ quote)%string in
  let regex := Regexp.MustCompile "A36 A" (Regexp.Str "A36 A") 0 in
  let '(_, err, c) := DirectCommand connection msgString regex in
  (err, c).

Definition SetTaskID (connection : Conn.t) (label value : string) : option error * Conn.t :=
  let msgString := ("A37 1 " ++ quote ++ label ++ quote ++ " " ++ quote ++ value ++ quote)%string in
  let regex := Regexp.MustCompile "A37 A" (Regexp.Str "A37 A") 0 in
  let '(_, err, c) := DirectCommand connection msgString regex in
  (err, c).

Definition SetMessage (connection : Conn.t) (message : string) : option error * Conn.t :=
  let msgString := ("D " ++ quote ++ message ++ quote)%string in
  let regex := Regexp.MustCompile "D A" (Regexp.Str "D A") 0 in
  let '(_, err, c) := DirectCommand connection msgString regex in
  (err, c).

Definition ShowWeight (connection : Conn.t) : option error * Conn.t :=
  let regex := Regexp.MustCompile "DW A" (Regexp.Str "DW A") 0 in
  let '(_, err, c) := DirectCommand connection "DW" regex in
  (err, c).

Definition GetUnit (connection : Conn.t) (channel : Z)
  : outcome (string * option error * Conn.t) :=
  let regex :=
    Regexp.MustCompile "M21 A [0-9] ([a-zA-Z]+)"
      (Regexp.Seq [Regexp.Str "M21 A "; Regexp.digit; Regexp.Lit " "%char;
                   Regexp.Cap 1 (Regexp.Plus Regexp.letter)]) 1 in
  let '(buf, err, c) := DirectCommand connection ("M21 " ++ Strconv.Itoa channel) regex in
  match err with
  | Some e => Returns (""%string, Some e, c)
  | None =>
      let result := Regexp.FindStringSubmatch regex (string_of_bytes buf) in
      match index result 1 with
      | Panics msg => Panics msg
      | Returns r1 => Returns (r1, None, c)
      end
  end.

Definition SetUnit (connection : Conn.t) (unit : string) (channel : Z) : option error * Conn.t :=
  let regex := Regexp.MustCompile "M21 A" (Regexp.Str "M21 A") 0 in
  let '(_, err, c) :=
    DirectCommand connection ("M21 " ++ Strconv.Itoa channel ++ " " ++ unit) regex in
  (err, c).

(** [PWR [AL]]: [PWR L] is returned if the scale is already on (off). *)
Definition pwrRegex : Regexp.Regexp :=
  Regexp.MustCompile "PWR [AL]" (Regexp.Cat (Regexp.Str "PWR ") Regexp.AL) 0.

Definition PowerOn (connection : Conn.t) : option error * Conn.t :=
  let regex := pwrRegex in
  let '(_, err, c) := DirectCommand connection "PWR 1" regex in
  (err, c).

Definition PowerOff (connection : Conn.t) : option error * Conn.t :=
  let regex := pwrRegex in
  let '(_, err, c) := DirectCommand connection "PWR 0" regex in
  (err, c).

Definition weightRegexS : Regexp.Regexp :=
  Regexp.MustCompile "S S +(-?[0-9]+\.[0-9]+) ([a-zA-Z]+)"
    (Regexp.Cat (Regexp.Str "S S") Regexp.value_and_unit) 2.

Definition Weight (connection : Conn.t) : outcome (Measurement.t * option error * Conn.t) :=
  let regex := weightRegexS in
  let '(buf, err, c) := DirectCommand connection "S" regex in
  match err with
  | Some e => Returns (Measurement.zero, Some e, c)
  | None =>
      let result := Regexp.FindStringSubmatch regex (string_of_bytes buf) in
      match index result 1 with
      | Panics msg => Panics msg
      | Returns r1 =>
          let '(weightValue, err) := Strconv.ParseFloat r1 in
          match err with
          | Some e => Returns (Measurement.zero, Some e, c)
          | None =>
              match index result 2 with
              | Panics msg => Panics msg
              | Returns r2 => Returns (Measurement.Build weightValue r2, None, c)
              end
          end
      end
  end.

Definition tareRegex : Regexp.Regexp :=
  Regexp.MustCompile "T S +(-?[0-9]+\.[0-9]+) ([a-zA-Z]+)"
    (Regexp.Cat (Regexp.Str "T S") Regexp.value_and_unit) 2.

Definition Tare (connection : Conn.t) : outcome (Measurement.t * option error * Conn.t) :=
  let regex := tareRegex in
  let '(buf, err, c) := DirectCommand connection "T" regex in
  match err with
  | Some e => Returns (Measurement.zero, Some e, c)
  | None =>
      let result := Regexp.FindStringSubmatch regex (string_of_bytes buf) in
      match index result 1 with
      | Panics msg => Panics msg
      | Returns r1 =>
          let '(weightValue, err) := Strconv.ParseFloat r1 in
          match err with
          | Some e => Returns (Measurement.zero, Some e, c)
          | None =>
              match index result 2 with
              | Panics msg => Panics msg
              | Returns r2 => Returns (Measurement.Build weightValue r2, None, c)
              end
          end
      end
  end.

(** *** WeightOnKey *)

(** The three patterns of [WeightOnKey]: [initRegex], [weightRegex] and
    [stopRegex] ([ST L] is returned if the reading is already stopped by
    user interrupt). *)
Definition initRegex : Regexp.Regexp :=
  Regexp.MustCompile "ST A" (Regexp.Str "ST A") 0.

Definition weightRegex : Regexp.Regexp :=
  Regexp.MustCompile "ST +(-?[0-9]+\.[0-9]+) ([a-zA-Z]+)"
    (Regexp.Cat (Regexp.Str "ST") Regexp.value_and_unit) 2.

Definition stopRegex : Regexp.Regexp :=
  Regexp.MustCompile "ST [AL]" (Regexp.Cat (Regexp.Str "ST ") Regexp.AL) 0.

(** How the read loop of [WeightOnKey] ends: by its condition, by a
    [return] with an error from inside, or by a panic. *)
Inductive acquired :=
| LoopDone (weightList : list Measurement.t) (evs : list ReadEvent) (now : Z)
| LoopReturned (e : error) (evs : list ReadEvent) (now : Z)
| LoopPanicked (msg : string).

(** [for i < numMeasurements && time.Since(start) < timeout { ... }].
    [i] is only ever incremented below [numMeasurements], so it stays an
    [int]. *)
Fixpoint acquire (numMeasurements : Z) (timeout : Time.Duration) (start : Z)
         (evs : list ReadEvent) (now : Z) (buf : bytes) (i : Z)
         (weightList : list Measurement.t) {struct evs} : acquired :=
  if (i <? numMeasurements)%Z && (Time.Since now start <? timeout)%Z then
    match evs with
    | [] => LoopReturned EOF [] now
    | ev :: evs' =>
        let now' := (now + latency ev)%Z in
        match receive ev buf with
        | (_, Some e) => LoopReturned e evs' now'
        | (buf', None) =>
            if Regexp.Match weightRegex buf' then
              let result := Regexp.FindStringSubmatch weightRegex (string_of_bytes buf') in
              match index result 1 with
              | Panics msg => LoopPanicked msg
              | Returns r1 =>
                  let '(weightValue, err) := Strconv.ParseFloat r1 in
                  match err with
                  | Some e => LoopReturned e evs' now'
                  | None =>
                      match index result 2 with
                      | Panics msg => LoopPanicked msg
                      | Returns r2 =>
                          acquire numMeasurements timeout start evs' now' buf'
                            (i + 1)%Z (weightList ++ [Measurement.Build weightValue r2])
                      end
                  end
              end
            else
              acquire numMeasurements timeout start evs' now' buf' i weightList
        end
    end
  else LoopDone weightList evs now.

Section Platform.

(** [int(math.Inf(1))]: Go leaves the conversion of a float that does not
    fit to the implementation, so its result is a parameter. *)
Variable intOfInf : Z.

Definition WeightOnKey (connection : Conn.t) (numMeasurements : Z)
           (timeout : Time.Duration)
  : outcome (list Measurement.t * option error * Conn.t) :=
  if (timeout =? 0)%Z && (numMeasurements =? 0)%Z then
    Returns ([], Some (errorString "timeout and numMeasurements cannot both be infinite (0)"),
             connection)
  else
    let timeout := if (timeout =? 0)%Z then (2 ^ 63 - 1)%Z else timeout in
    let numMeasurements := if (numMeasurements =? 0)%Z then intOfInf else numMeasurements in
    let '(_, err, c) := DirectCommand connection "ST 1" initRegex in
    match err with
    | Some e => Returns ([], Some e, c)
    | None =>
        (* Read (until match or timeout) *)
        let buf := make 128 in
        let start := now c in
        match acquire numMeasurements timeout start (incoming c) (now c) buf 0 [] with
        | LoopPanicked msg => Panics msg
        | LoopReturned e evs t => Returns ([], Some e, Build t evs (wresults c) (written c))
        | LoopDone weightList evs t =>
            (* the deferred call, run on the way out of this return *)
            let '(_, _, c') :=
              DirectCommand (Build t evs (wresults c) (written c)) "ST 0" stopRegex in
            Returns (weightList, None, c')
        end
    end.

End Platform.

(** *** Doors *)

Definition GetDoorStatus (connection : Conn.t) : outcome (string * option error * Conn.t) :=
  let regex := Regexp.MustCompile "WS" (Regexp.Str "WS") 0 in
  let '(buf, err, c) := DirectCommand connection "WS ([0-9])" regex in
  match err with
  | Some e => Returns (""%string, Some e, c)
  | None =>
      let result := Regexp.FindStringSubmatch regex (string_of_bytes buf) in
      match index result 1 with
      | Panics msg => Panics msg
      | Returns r1 => Returns (r1, None, c)
      end
  end.

(** [WS [AL]]: [WS L] is returned if the doors are already as asked. *)
Definition wsRegex : Regexp.Regexp :=
  Regexp.MustCompile "WS [AL]" (Regexp.Cat (Regexp.Str "WS ") Regexp.AL) 0.

Definition CloseAllDoors (connection : Conn.t) : option error * Conn.t :=
  let regex := wsRegex in
  let '(_, err, c) := DirectCommand connection "WS 0" regex in
  (err, c).



Definition Zero (connection : Conn.t) : option error * Conn.t :=
  let regex := Regexp.MustCompile "Z A" (Regexp.Str "Z A") 0 in
  let '(_, err, c) := DirectCommand connection "Z" regex in
  (err, c).

End MT_SICS.

Import Conn MT_SICS.
Local Open Scope Z_scope.

(** ** Vocabulary of the properties *)

Definition all_digits (w : bytes) : Prop := Forall (fun c => Strconv.is_digit c = true) w.

(** A signed decimal, the text of [-?[0-9]+\.[0-9]+]. *)
Definition signed_decimal (w : bytes) : Prop :=
  exists sign ds1 ds2,
    w = sign ++ ds1 ++ "."%char :: ds2 /\
    (sign = [] \/ sign = ["-"%char]) /\
    ds1 <> [] /\ ds2 <> [] /\ all_digits ds1 /\ all_digits ds2.

(** The letters of [[a-zA-Z]]. *)
Definition is_letter (c : ascii) : bool :=
  Regexp.in_class [("a"%char, "z"%char); ("A"%char, "Z"%char)] c.

Definition all_letters (w : bytes) : Prop := Forall (fun c => is_letter c = true) w.

Definition all_blanks (w : bytes) : Prop := Forall (fun c => c = " "%char) w.

(** The integer a run of digits denotes, behind the digits already read. *)
Definition digits_value (ds : bytes) (acc : N) : N :=
  fold_left (fun a c => (10 * a + Strconv.digit_val c)%N) ds acc.

(** The three measurement patterns are a literal head followed by
    [ +(-?[0-9]+\.[0-9]+) ([a-zA-Z]+)]. *)
Definition measurement_pattern (re : Regexp.Regexp) : Prop :=
  exists head, Regexp.prog re = Regexp.Cat (Regexp.Str head) Regexp.value_and_unit /\
               Regexp.numSubexp re = 2%nat.

(** A read that delivers bytes. *)
Definition delivery (ev : ReadEvent) : bool :=
  match ev with
  | Delivers _ _ => true
  | Fails _ _ => false
  end.

(** The buffer after the reads [evs] into it, one after the other. *)
Definition overlay (buf : bytes) (evs : list ReadEvent) : bytes :=
  fold_left (fun b ev => fst (receive ev b)) evs buf.

(** The time the reads [evs] take. *)
Definition elapsed (evs : list ReadEvent) : Z :=
  fold_right (fun ev t => latency ev + t) 0 evs.


(** The error of a [DirectCommand] that ran out of time: the command, the
    pattern and the buffer as it was left. *)
Definition timed_out (command : string) (regex : Regexp.Regexp) (buf : bytes) : error :=
  errorString ("command '" ++ command ++ "' timed-out, want: "
                 ++ Regexp.String regex ++ ", got: " ++ string_of_bytes buf).

(** Concrete connections for the examples: a fresh line at time 0 that is
    going to deliver [evs] and accepts every write. *)
Definition ms : N := 1000000.
Definition fresh (evs : list ReadEvent) : Conn.t := Conn.Build 0 evs [] [].
Definition says (lat : N) (s : string) : ReadEvent := Delivers lat (bytes_of_string s).

(** The two operations that convert a measurement reply, with the command
    each sends and the pattern it waits for. *)
Definition measurement_ops
  : list ((Conn.t -> outcome (Measurement.t * option error * Conn.t)) * string * Regexp.Regexp) :=
  [(Weight, "S"%string, weightRegexS); (Tare, "T"%string, tareRegex)].

(** The [float64] a decimal literal [m * 10^e] of the source denotes. *)
Definition float_lit (m : N) (e : Z) : Strconv.float64 := Strconv.nearest false m e.

(** [A10 A], the acknowledgement SetTarget waits for after each command. *)
Definition a10Regex : Regexp.Regexp := Regexp.MustCompile "A10 A" (Regexp.Str "A10 A") 0.


(** The bytes [b] carry the reply [verb letter]: the verb, a blank and the
    letter, somewhere in them. *)
Definition carries (verb : string) (letter : ascii) (b : bytes) : Prop :=
  exists pre post, b = pre ++ bytes_of_string (verb ++ " ") ++ letter :: post.



(** The number of reads among [evs] after which the buffer of the loop of
    [WeightOnKey] matches the pattern, [buf] being the buffer before. *)
Fixpoint hits (buf : bytes) (evs : list ReadEvent) : nat :=
  match evs with
  | [] => 0
  | ev :: evs' =>
      let buf' := fst (receive ev buf) in
      ((if Regexp.Match weightRegex buf' then 1 else 0) + hits buf' evs')%nat
  end.



(** ** Vocabulary of the further properties *)

(** The text that follows does not go on with a byte of the class [cls]: it
    is empty or starts with another byte. *)
Definition stops (cls : ascii -> bool) (tail : bytes) : bool :=
  match tail with
  | [] => true
  | y :: _ => negb (cls y)
  end.

(** [Weight] and [Tare] with the literal head of the reply each waits for. *)
Definition measurement_replies
  : list ((Conn.t -> outcome (Measurement.t * option error * Conn.t)) * string * string) :=
  [(Weight, "S"%string, "S S"%string); (Tare, "T"%string, "T S"%string)].

(** The pattern of [GetUnit]. *)
Definition m21Regex : Regexp.Regexp :=
  Regexp.MustCompile "M21 A [0-9] ([a-zA-Z]+)"
    (Regexp.Seq [Regexp.Str "M21 A "; Regexp.digit; Regexp.Lit " "%char;
                 Regexp.Cap 1 (Regexp.Plus Regexp.letter)]) 1.

(** The pattern [GetDoorStatus] compiles. *)
Definition doorStatusRegex : Regexp.Regexp :=
  Regexp.MustCompile "WS" (Regexp.Str "WS") 0.

(** The lines [WeightOnKey] writes. *)
Definition startLine : bytes := bytes_of_string ("ST 1" ++ CRLF).
Definition stopLine : bytes := bytes_of_string ("ST 0" ++ CRLF).

(** A measurement as the patterns let it through: its unit is not empty and
    consists of letters. *)
Definition well_formed (m : Measurement.t) : Prop :=
  Measurement.Unit m <> ""%string /\ all_letters (bytes_of_string (Measurement.Unit m)).

(** The count and the deadline the loop of [WeightOnKey] runs with. *)
Definition effective_count (intOfInf numMeasurements : Z) : Z :=
  if (numMeasurements =? 0)%Z then intOfInf else numMeasurements.

Definition effective_timeout (timeout_ : Time.Duration) : Time.Duration :=
  if (timeout_ =? 0)%Z then Time.maxDuration else timeout_.

(** A session for the examples: the start command is acknowledged, a frame
    arrives at once and a second one five seconds later. *)
Definition slow_session : Conn.t :=
  fresh [says ms ("ST A" ++ CRLF); says ms ("ST     1.50 g" ++ CRLF);
         says (5000 * ms) ("ST     2.50 kg" ++ CRLF); says ms "ST A"].

Definition slow_session_result : list Measurement.t :=
  [Measurement.Build (float_lit 150 (-2)) "g"; Measurement.Build (float_lit 250 (-2)) "kg"].

Definition slow_session_end : Conn.t := Conn.Build 5003000000 [] [] [startLine; stopLine].

(** A measurement frame as the balance sends it in continuous mode: after
    [ST], one or more blanks, a signed decimal, a blank, a unit and the rest
    of the line; and the time the read that brings it takes. *)
Record Frame := {
  frame_latency : N;
  frame_blanks : bytes;
  frame_number : bytes;
  frame_unit : bytes;
  frame_tail : bytes
}.

Definition frame_bytes (f : Frame) : bytes :=
  bytes_of_string "ST" ++ frame_blanks f ++ frame_number f
    ++ " "%char :: frame_unit f ++ frame_tail f.

Definition frame_read (f : Frame) : ReadEvent := Delivers (frame_latency f) (frame_bytes f).

(** The frame is well-formed, something that is not a letter follows the
    unit, and the frame fits the buffer. *)
Definition frame_ok (f : Frame) : Prop :=
  frame_blanks f <> [] /\ all_blanks (frame_blanks f) /\
  signed_decimal (frame_number f) /\
  frame_unit f <> [] /\ all_letters (frame_unit f) /\
  frame_tail f <> [] /\ stops is_letter (frame_tail f) = true /\
  (length (frame_bytes f) <= 128)%nat.

(** The measurement a frame stands for. *)
Definition frame_measurement (f : Frame) : Measurement.t :=
  Measurement.Build (fst (Strconv.ParseFloat (string_of_bytes (frame_number f))))
                    (string_of_bytes (frame_unit f)).

(** The operations that send one command and wait for its acknowledgement,
    [verb A]: each with the command it sends and the verb. *)
Inductive ack_op : (Conn.t -> option error * Conn.t) -> string -> string -> Prop :=
| ack_SetResultID label value :
    ack_op (fun c => SetResultID c label value)
           ("A36 1 " ++ quote ++ label ++ quote ++ " " ++ quote ++ value ++ quote) "A36"
| ack_SetTaskID label value :
    ack_op (fun c => SetTaskID c label value)
           ("A37 1 " ++ quote ++ label ++ quote ++ " " ++ quote ++ value ++ quote) "A37"
| ack_SetMessage message :
    ack_op (fun c => SetMessage c message) ("D " ++ quote ++ message ++ quote) "D"
| ack_ShowWeight : ack_op ShowWeight "DW" "DW"
| ack_SetUnit unit channel :
    ack_op (fun c => SetUnit c unit channel)
           ("M21 " ++ Strconv.Itoa channel ++ " " ++ unit) "M21"
| ack_Zero : ack_op Zero "Z" "Z".

(** The three command lines of [SetTarget]. *)
Definition target_lines (target : Strconv.float64) (unit : string)
           (upperTolerance lowerTolerance : Strconv.float64) (relativeTolerance : bool)
  : list bytes :=
  let tolerance_unit := if relativeTolerance then "%"%string else unit in
  [bytes_of_string ("A10 0 " ++ Strconv.FormatFloat target 2 ++ " " ++ unit ++ CRLF);
   bytes_of_string ("A10 1 " ++ Strconv.FormatFloat upperTolerance 2 ++ " "
                      ++ tolerance_unit ++ CRLF);
   bytes_of_string ("A10 2 " ++ Strconv.FormatFloat lowerTolerance 2 ++ " "
                      ++ tolerance_unit ++ CRLF)].

(** The three commands of [SetTarget], as it hands them to [DirectCommand]. *)
Definition target_commands (target : Strconv.float64) (unit : string)
           (upperTolerance lowerTolerance : Strconv.float64) (relativeTolerance : bool)
  : list string :=
  let tolerance_unit := if relativeTolerance then "%"%string else unit in
  [("A10 0 " ++ Strconv.FormatFloat target 2 ++ " " ++ unit)%string;
   ("A10 1 " ++ Strconv.FormatFloat upperTolerance 2 ++ " " ++ tolerance_unit)%string;
   ("A10 2 " ++ Strconv.FormatFloat lowerTolerance 2 ++ " " ++ tolerance_unit)%string].

(** [acknowledged c commands c']: from [c] on, each of the commands was sent
    by a [DirectCommand] that waited for [A10 A] and returned no error, one
    after the other, and the connection is then [c']. *)
Inductive acknowledged : Conn.t -> list string -> Conn.t -> Prop :=
| acknowledged_nil c : acknowledged c [] c
| acknowledged_cons c command buf c1 commands c2 :
    DirectCommand c command a10Regex = (buf, None, c1) ->
    acknowledged c1 commands c2 ->
    acknowledged c (command :: commands) c2.

(** * Properties *)

Unset Implicit Arguments.

(** ** Bytes *)

Lemma copy_length (dst src : bytes) : length (copy dst src) = length dst.
Proof.
  unfold copy. rewrite length_app, length_firstn, length_skipn. lia.
Qed.

Lemma copy_fits (dst src : bytes) :
  (length src <= length dst)%nat -> copy dst src = src ++ skipn (length src) dst.
Proof.
  intros H. unfold copy. now rewrite firstn_all2.
Qed.

Lemma make_length n : length (make n) = n.
Proof. apply repeat_length. Qed.

Lemma skipn_make k : forall n, skipn k (make n) = make (n - k).
Proof.
  unfold make. induction k as [|k IH]; intros n; simpl.
  - now rewrite Nat.sub_0_r.
  - destruct n; simpl; auto.
Qed.

Lemma first_buffer reply :
  (length reply <= 128)%nat ->
  copy (make 128) reply = reply ++ make (128 - length reply).
Proof.
  intros H. rewrite copy_fits by (rewrite make_length; lia). now rewrite skipn_make.
Qed.

Lemma string_of_bytes_nonempty (w : bytes) : w <> [] -> string_of_bytes w <> ""%string.
Proof. destruct w; [congruence|discriminate]. Qed.

Lemma bytes_of_string_of_bytes (w : bytes) : bytes_of_string (string_of_bytes w) = w.
Proof. apply list_ascii_of_string_of_list_ascii. Qed.


(** ** The matcher against the meaning of the expressions *)

Section Matcher.

Import Regexp.

Lemma consumed_app (w s : bytes) : consumed (w ++ s) s = w.
Proof.
  unfold consumed. rewrite length_app.
  replace (length w + length s - length s)%nat with (length w + 0)%nat by lia.
  rewrite firstn_app_2. simpl. now rewrite app_nil_r.
Qed.

Lemma rounds_sound r (IHr : sound_at r) :
  forall fuel s c k res, rounds (run r) k fuel s c = Some res ->
    exists w s' c', s = w ++ s' /\ Sem (Plus r) w c c' /\ k s' c' = Some res.
Proof.
  induction fuel as [|fuel IH]; intros s c k res H; simpl in H; [discriminate|].
  apply IHr in H. destruct H as (w1 & s1 & c1 & -> & Hw1 & H).
  destruct (length s1 <? length (w1 ++ s1))%nat.
  - destruct (rounds (run r) k fuel s1 c1) as [res'|] eqn:E.
    + inversion H; subst res'. apply IH in E.
      destruct E as (w2 & s2 & c2 & -> & Hw2 & Hk).
      exists (w1 ++ w2), s2, c2. rewrite <- app_assoc.
      repeat split; auto. eapply SemPlusMore; eauto.
    + exists w1, s1, c1. repeat split; auto. now apply SemPlusOne.
  - exists w1, s1, c1. repeat split; auto. now apply SemPlusOne.
Qed.

Lemma run_sound r : sound_at r.
Proof.
  induction r as [|a|ranges|r1 IH1 r2 IH2|r IH|r IH|i r IH];
    intros s c k res H; cbn [run] in H.
  - exists [], s, c. repeat split; auto. constructor.
  - destruct s as [|x s]; [discriminate|].
    destruct (Ascii.eqb_spec x a); [subst x|discriminate].
    exists [a], s, c. repeat split; auto. constructor.
  - destruct s as [|x s]; [discriminate|].
    destruct (in_class ranges x) eqn:E; [|discriminate].
    exists [x], s, c. repeat split; auto. now constructor.
  - apply IH1 in H. destruct H as (w1 & s1 & c1 & -> & Hw1 & H).
    apply IH2 in H. destruct H as (w2 & s2 & c2 & -> & Hw2 & H).
    exists (w1 ++ w2), s2, c2. rewrite <- app_assoc.
    repeat split; auto. econstructor; eauto.
  - exact (rounds_sound _ IH _ _ _ _ _ H).
  - destruct (run r s c k) as [res'|] eqn:E.
    + inversion H; subst res'. apply IH in E.
      destruct E as (w & s' & c' & -> & Hw & Hk).
      exists w, s', c'. repeat split; auto. now apply SemQuestSome.
    + exists [], s, c. repeat split; auto. apply SemQuestNone.
  - apply IH in H. destruct H as (w & s' & c' & -> & Hw & Hk).
    rewrite consumed_app in Hk.
    exists w, s', (set_capture i w c'). repeat split; auto. now constructor.
Qed.

Lemma rounds_complete r (IHr : complete_at r) :
  forall w c c', Sem (Plus r) w c c' ->
    forall fuel s' c0 k, (length (w ++ s') < fuel)%nat ->
      (forall c1, k s' c1 <> None) -> rounds (run r) k fuel (w ++ s') c0 <> None.
Proof.
  intros w c c' H. remember (Plus r) as R eqn:ER.
  induction H as [ | | | | | |r' w c c1 H _|r' w1 w2 c c1 c2 H1 _ H2 IH2| ];
    try discriminate; inversion ER; subst r'; clear ER;
    intros fuel s' c0 k Hfuel Hk.
  - destruct fuel as [|fuel]; [lia|]. cbn [rounds].
    apply (IHr _ _ _ H). intros c1'.
    destruct (length s' <? length (w ++ s'))%nat; [|apply Hk].
    destruct (rounds (run r) k fuel s' c1'); [discriminate|apply Hk].
  - destruct w1 as [|x w1].
    + simpl. now apply IH2.
    + destruct fuel as [|fuel]; [lia|]. cbn [rounds].
      rewrite <- app_assoc. apply (IHr _ _ _ H1). intros c1'.
      rewrite (app_assoc (x :: w1)).
      replace (length (w2 ++ s') <? length (((x :: w1) ++ w2) ++ s'))%nat with true.
      2:{ symmetry. apply Nat.ltb_lt. rewrite !length_app. simpl. lia. }
      destruct (rounds (run r) k fuel (w2 ++ s') c1') eqn:E; [discriminate|].
      exfalso. revert E. apply IH2; auto.
      rewrite !length_app in *. simpl in Hfuel. lia.
Qed.

Lemma run_complete r : complete_at r.
Proof.
  induction r as [|a|ranges|r1 IH1 r2 IH2|r IH|r IH|i r IH];
    intros w c c' H s' c0 k Hk; cbn [run].
  - inversion H; subst. apply Hk.
  - inversion H; subst. simpl. rewrite Ascii.eqb_refl. apply Hk.
  - inversion H; subst. simpl.
    match goal with E : in_class _ _ = true |- _ => rewrite E end. apply Hk.
  - inversion H; subst. rewrite <- app_assoc.
    eapply IH1; [eassumption|]. intros c1'. eapply IH2; eauto.
  - eapply (rounds_complete _ IH); eauto.
  - inversion H; subst.
    + simpl. destruct (run r s' c0 k); [discriminate|apply Hk].
    + destruct (run r (w ++ s') c0 k) eqn:E; [discriminate|].
      exfalso. revert E. eapply IH; eauto.
  - inversion H; subst. eapply IH; [eassumption|]. intros c1'. apply Hk.
Qed.

(** The search finds a match exactly when some part of the input is in the
    language; what it returns is a match, group 0 holding its text. *)
Lemma search_sound r : forall s c,
    search r s = Some c ->
    exists pre w post c1,
      s = pre ++ w ++ post /\ Sem r w no_captures c1 /\ c = set_capture 0 w c1.
Proof.
  induction s as [|x s IH]; intros c H; cbn [search] in H.
  - destruct (run (Cap 0 r) [] no_captures (fun _ c => Some c)) eqn:E; [|discriminate].
    apply run_sound in E. destruct E as (w & s' & c' & Hs & Hw & Hk).
    inversion Hw; subst. exists [], w, s'. eexists. repeat split; eauto. congruence.
  - destruct (run (Cap 0 r) (x :: s) no_captures (fun _ c => Some c)) eqn:E.
    + apply run_sound in E. destruct E as (w & s' & c' & Hs & Hw & Hk).
      inversion Hw; subst. exists [], w, s'. eexists. repeat split; eauto. congruence.
    + apply IH in H. destruct H as (pre & w & post & c1 & -> & Hw & ->).
      exists (x :: pre), w, post, c1. repeat split; auto.
Qed.

Lemma search_complete r w c c' : Sem r w c c' ->
  forall pre post, search r (pre ++ w ++ post) <> None.
Proof.
  intros H. induction pre as [|x pre IH]; intros post.
  - assert (E : run (Cap 0 r) (w ++ post) no_captures (fun _ c => Some c) <> None).
    { apply (run_complete (Cap 0 r) w c (set_capture 0 w c')); [now constructor|].
      discriminate. }
    simpl app. destruct (w ++ post); cbn [search];
      destruct (run (Cap 0 r) _ no_captures (fun _ c => Some c)); congruence.
  - simpl app. cbn [search].
    destruct (run (Cap 0 r) _ no_captures (fun _ c => Some c)); [discriminate|].
    apply IH.
Qed.

Lemma Regexp_Match_iff re b :
  Match re b = true <->
  exists pre w post, b = pre ++ w ++ post /\ Lang (prog re) w.
Proof.
  unfold Match, doExecute. split.
  - destruct (search (prog re) b) eqn:E; [|discriminate]. intros _.
    apply search_sound in E. destruct E as (pre & w & post & c1 & -> & Hw & _).
    exists pre, w, post. split; auto. now exists no_captures, c1.
  - intros (pre & w & post & -> & c & c' & Hw).
    pose proof (search_complete _ _ _ _ Hw pre post) as E.
    destruct (search (prog re) (pre ++ w ++ post)); congruence.
Qed.


(** *** The patterns of the package *)

Lemma Sem_groupless r w c c' : Sem r w c c' -> groupless r = true -> c' = c.
Proof.
  induction 1; simpl; intros G; auto; try discriminate.
  - apply andb_prop in G. destruct G as [G1 G2].
    rewrite (IHSem2 G2). auto.
  - rewrite (IHSem2 G). auto.
Qed.

Lemma groupless_Str s : groupless (Str s) = true.
Proof.
  unfold Str. induction (bytes_of_string s); simpl; auto.
Qed.

Lemma Sem_Str_inv s w c c' : Sem (Str s) w c c' -> w = bytes_of_string s /\ c' = c.
Proof.
  intros H. split; [|eapply Sem_groupless; eauto using groupless_Str].
  unfold Str in H. revert w c c' H.
  induction (bytes_of_string s) as [|a l IH]; simpl; intros w c c' H.
  - now inversion H.
  - inversion H; subst.
    match goal with H1 : Sem (Lit a) _ _ _ |- _ => inversion H1; subst end.
    simpl. f_equal. eauto.
Qed.

Lemma Sem_Str s c : Sem (Str s) (bytes_of_string s) c c.
Proof.
  unfold Str. induction (bytes_of_string s) as [|a l IH]; simpl.
  - constructor.
  - change (a :: l) with ([a] ++ l). econstructor; [constructor|exact IH].
Qed.

Lemma Sem_Plus_Class_inv ranges w c c' :
  Sem (Plus (Class ranges)) w c c' ->
  w <> [] /\ Forall (fun x => in_class ranges x = true) w.
Proof.
  intros H. remember (Plus (Class ranges)) as R eqn:ER.
  induction H; try discriminate; inversion ER; subst.
  - match goal with H1 : Sem (Class _) _ _ _ |- _ => inversion H1; subst end.
    split; [discriminate|]. repeat constructor. auto.
  - match goal with H1 : Sem (Class _) _ _ _ |- _ => inversion H1; subst end.
    split; [discriminate|]. simpl. constructor; auto.
    now apply IHSem2.
Qed.


Lemma in_class_digit x : in_class [("0"%char, "9"%char)] x = Strconv.is_digit x.
Proof.
  unfold in_class, in_range, Strconv.is_digit. simpl. now rewrite orb_false_r.
Qed.

(** What [-?[0-9]+\.[0-9]+] matches is a signed decimal. *)
Lemma Sem_number_inv w c c' : Sem number w c c' -> signed_decimal w /\ c' = c.
Proof.
  intros H. split; [|eapply Sem_groupless; eauto].
  unfold number, Seq in H. simpl in H.
  inversion H as [ | | |? ? sign w1 ? ? ? Hsign H1| | | | | ]; subst; clear H.
  inversion H1 as [ | | |? ? ds1 w2 ? ? ? Hds1 H2| | | | | ]; subst; clear H1.
  inversion H2 as [ | | |? ? dot w3 ? ? ? Hdot H3| | | | | ]; subst; clear H2.
  inversion H3 as [ | | |? ? ds2 w4 ? ? ? Hds2 H4| | | | | ]; subst; clear H3.
  inversion H4; subst; clear H4.
  inversion Hdot; subst; clear Hdot.
  apply Sem_Plus_Class_inv in Hds1. apply Sem_Plus_Class_inv in Hds2.
  destruct Hds1 as [N1 D1], Hds2 as [N2 D2].
  exists sign, ds1, ds2. rewrite app_nil_r. repeat split; auto.
  - inversion Hsign; subst; auto.
    match goal with H1 : Sem (Lit _) _ _ _ |- _ => inversion H1; subst end. auto.
  - unfold all_digits. eapply Forall_impl; [|exact D1].
    intros a. cbv beta. now rewrite in_class_digit.
  - unfold all_digits. eapply Forall_impl; [|exact D2].
    intros a. cbv beta. now rewrite in_class_digit.
Qed.

(** What [ +(-?[0-9]+\.[0-9]+) ([a-zA-Z]+)] matches, and what it leaves in
    groups 1 and 2. *)
Lemma Sem_value_and_unit_inv w c c' :
  Sem value_and_unit w c c' ->
  exists sp num unit_,
    w = sp ++ num ++ " "%char :: unit_ /\ signed_decimal num /\
    c' = set_capture 2 unit_ (set_capture 1 num c).
Proof.
  intros H. unfold value_and_unit, Seq in H. simpl in H.
  inversion H as [ | | |? ? sp w1 ? c1 ? Hsp H1| | | | | ]; subst; clear H.
  inversion H1 as [ | | |? ? num w2 ? c2 ? Hnum H2| | | | | ]; subst; clear H1.
  inversion H2 as [ | | |? ? blank w3 ? c3 ? Hblank H3| | | | | ]; subst; clear H2.
  inversion H3 as [ | | |? ? unit_ w4 ? c4 ? Hunit H4| | | | | ]; subst; clear H3.
  inversion H4; subst; clear H4.
  inversion Hblank; subst; clear Hblank.
  inversion Hnum as [ | | | | | | | |? ? ? ? c5 Hn]; subst; clear Hnum.
  inversion Hunit as [ | | | | | | | |? ? ? ? c6 Hu]; subst; clear Hunit.
  apply Sem_number_inv in Hn. destruct Hn as [Hn ->].
  apply Sem_groupless in Hu; [|reflexivity]. subst c6.
  apply Sem_groupless in Hsp; [|reflexivity]. subst c1.
  exists sp, num, unit_. rewrite app_nil_r. auto.
Qed.

End Matcher.

(** ** ParseFloat on a signed decimal *)

Section ParseFloat.

Import Strconv.

Lemma is_digit_range d : is_digit d = true -> (48 <= N_of_ascii d <= 57)%N.
Proof.
  unfold is_digit. intros H. apply andb_prop in H. destruct H as [H1 H2].
  apply N.leb_le in H1, H2. lia.
Qed.

Lemma is_digit_eqb d a : is_digit d = true -> is_digit a = false -> Ascii.eqb d a = false.
Proof.
  intros Hd Ha. destruct (Ascii.eqb_spec d a); auto. subst. congruence.
Qed.

Lemma is_digit_lower d : is_digit d = true -> lower d = d.
Proof.
  intros H. apply is_digit_range in H. unfold lower.
  replace (65 <=? N_of_ascii d)%N with false; auto.
  symmetry. apply N.leb_gt. lia.
Qed.

Lemma digit_val_le d : is_digit d = true -> (digit_val d <= 9)%N.
Proof. intros H. apply is_digit_range in H. unfold digit_val. lia. Qed.

Lemma digits_value_lt ds : all_digits ds -> forall acc,
  Z.of_N (digits_value ds acc) < (Z.of_N acc + 1) * 10 ^ Z.of_nat (length ds).
Proof.
  unfold digits_value. induction 1 as [|d ds Hd _ IH]; intros acc.
  - simpl. lia.
  - cbn [fold_left length]. specialize (IH (10 * acc + digit_val d)%N).
    apply digit_val_le in Hd.
    rewrite Nat2Z.inj_succ, Z.pow_succ_r by lia.
    assert (0 < 10 ^ Z.of_nat (length ds)) by (apply Z.pow_pos_nonneg; lia).
    nia.
Qed.

(** The digit loop runs through a run of digits. *)
Lemma scan_digits_run ds : all_digits ds -> forall rest m,
  scan (ds ++ rest) m =
  scan rest {| mant := digits_value ds (mant m);
               sawdot := sawdot m;
               sawdigits := sawdigits m || negb (Nat.eqb (length ds) 0);
               fracDigits := if sawdot m then (fracDigits m + length ds)%nat
                             else fracDigits m |}.
Proof.
  induction 1 as [|d ds Hd _ IH]; intros rest m.
  - simpl. rewrite orb_false_r. destruct m as [a b c n]; simpl.
    destruct b; now rewrite ?Nat.add_0_r.
  - simpl app. cbn [scan].
    rewrite (is_digit_eqb d "."%char Hd) by reflexivity.
    rewrite Hd, IH. f_equal. cbn [mant sawdot sawdigits fracDigits length].
    rewrite !orb_true_r. destruct (sawdot m); simpl; f_equal; lia.
Qed.

Lemma readFloat_signed_decimal sign ds1 ds2 :
  (sign = [] \/ sign = ["-"%char]) -> ds1 <> [] -> ds2 <> [] ->
  all_digits ds1 -> all_digits ds2 ->
  readFloat (sign ++ ds1 ++ "."%char :: ds2) =
  Some (match sign with [] => false | _ => true end,
        digits_value (ds1 ++ ds2) 0,
        - Z.of_nat (length ds2)).
Proof.
  intros Hsign N1 N2 D1 D2. unfold readFloat.
  assert (E : sign_of (sign ++ ds1 ++ "."%char :: ds2) =
              (match sign with [] => false | _ => true end, ds1 ++ "."%char :: ds2)).
  { destruct Hsign; subst sign; [|reflexivity].
    destruct ds1 as [|d ds1]; [congruence|]. inversion D1 as [|? ? Hd Hds]; subst.
    simpl. now rewrite !(is_digit_eqb _ _ Hd) by reflexivity. }
  rewrite E, scan_digits_run by auto.
  cbn [scan mantissa0 mant sawdot sawdigits fracDigits].
  rewrite Ascii.eqb_refl.
  rewrite <- (app_nil_r ds2) at 1. rewrite scan_digits_run by auto.
  cbn [scan mantissa0 mant sawdot sawdigits fracDigits].
  replace (Nat.eqb (length ds1) 0) with false
    by (destruct ds1; [congruence|reflexivity]).
  simpl. unfold digits_value. rewrite fold_left_app. reflexivity.
Qed.

Lemma eq_fold_digit d t w :
  is_digit d = true ->
  match w with EmptyString => True | String a _ => is_digit a = false end ->
  eq_fold (d :: t) w = false.
Proof.
  intros Hd Hw. unfold eq_fold. destruct w as [|a w]; [reflexivity|].
  simpl. rewrite (is_digit_lower _ Hd), (is_digit_eqb _ _ Hd Hw). reflexivity.
Qed.

Lemma special_signed_decimal sign ds1 rest :
  (sign = [] \/ sign = ["-"%char]) -> ds1 <> [] -> all_digits ds1 ->
  special (sign ++ ds1 ++ rest) = None.
Proof.
  intros Hsign N1 D1. destruct ds1 as [|d ds1]; [congruence|].
  inversion D1 as [|? ? Hd Hds]; subst. unfold special.
  destruct Hsign; subst sign.
  - simpl app. cbn [sign_of].
    rewrite !(is_digit_eqb _ _ Hd) by reflexivity.
    now rewrite !(eq_fold_digit _ _ _ Hd) by reflexivity.
  - simpl app. cbn [sign_of]. simpl (Ascii.eqb _ _). cbv iota beta.
    now rewrite !(eq_fold_digit _ _ _ Hd) by reflexivity.
Qed.

Lemma small_below_threshold : 10 ^ 300 < overflow_threshold.
Proof. reflexivity. Qed.

(** A signed decimal of at most 300 bytes converts without error: it is
    well-formed and far below the largest [float64]. *)
Lemma ParseFloat_signed_decimal w :
  signed_decimal w -> (length w <= 300)%nat ->
  snd (ParseFloat (string_of_bytes w)) = None.
Proof.
  intros (sign & ds1 & ds2 & -> & Hsign & N1 & N2 & D1 & D2) Hlen.
  unfold ParseFloat, bytes_of_string, string_of_bytes.
  rewrite list_ascii_of_string_of_list_ascii.
  rewrite special_signed_decimal, readFloat_signed_decimal by auto.
  assert (Hm : Z.of_N (digits_value (ds1 ++ ds2) 0) < 10 ^ 300).
  { assert (B := digits_value_lt (ds1 ++ ds2) ltac:(apply Forall_app; auto) 0%N).
    eapply Z.lt_le_trans; [exact B|].
    change (Z.of_N 0 + 1) with 1. rewrite Z.mul_1_l.
    apply Z.pow_le_mono_r; [lia|].
    rewrite !length_app in *. simpl in Hlen. lia. }
  pose proof small_below_threshold as T.
  replace (overflows (digits_value (ds1 ++ ds2) 0) (- Z.of_nat (length ds2))) with false;
    [reflexivity|].
  symmetry. unfold overflows.
  destruct (- Z.of_nat (length ds2)) as [|p|p] eqn:E.
  - apply Z.leb_gt. lia.
  - lia.
  - apply Z.leb_gt.
    assert (0 < 10 ^ Z.pos p) by (apply Z.pow_pos_nonneg; lia).
    assert (0 < overflow_threshold) by reflexivity. nia.
Qed.

End ParseFloat.

(** ** Replies to the measurement patterns *)

Lemma measurement_submatch re b :
  measurement_pattern re -> Regexp.Match re b = true ->
  exists whole num unit_,
    Regexp.FindSubmatch re b = [whole; num; unit_] /\
    signed_decimal num /\ (length num <= length b)%nat.
Proof.
  intros (head & Hprog & Hn) HM.
  unfold Regexp.Match in HM. unfold Regexp.FindSubmatch. rewrite Hn.
  destruct (Regexp.doExecute re b) as [c|] eqn:E; [clear HM|discriminate].
  unfold Regexp.doExecute in E. rewrite Hprog in E.
  apply search_sound in E. destruct E as (pre & w & post & c1 & -> & Hw & ->).
  inversion Hw as [ | | |? ? w1 w2 ? c2 ? Hhead Htail| | | | | ]; subst; clear Hw.
  apply Sem_Str_inv in Hhead. destruct Hhead as [-> ->].
  apply Sem_value_and_unit_inv in Htail.
  destruct Htail as (sp & num & unit_ & -> & Hnum & ->).
  exists (bytes_of_string head ++ sp ++ num ++ " "%char :: unit_), num, unit_.
  repeat split; auto.
  repeat (rewrite length_app; simpl). lia.
Qed.

(** On a buffer that matches, [result[1]] and [result[2]] exist, [result[1]]
    is not empty and its conversion does not fail. *)
Lemma measurement_reply re buf :
  measurement_pattern re -> Regexp.Match re buf = true -> (length buf <= 300)%nat ->
  exists whole num unit_,
    Regexp.FindStringSubmatch re (string_of_bytes buf) = [whole; num; unit_] /\
    num <> ""%string /\
    signed_decimal (bytes_of_string num) /\
    snd (Strconv.ParseFloat num) = None.
Proof.
  intros Hre HM Hlen.
  destruct (measurement_submatch re buf Hre HM) as (whole & num & unit_ & E & Hnum & Hl).
  exists (string_of_bytes whole), (string_of_bytes num), (string_of_bytes unit_).
  unfold Regexp.FindStringSubmatch, bytes_of_string, string_of_bytes.
  rewrite list_ascii_of_string_of_list_ascii.
  fold bytes_of_string string_of_bytes. rewrite E.
  repeat split.
  - destruct Hnum as (sign & ds1 & ds2 & -> & _). intros C.
    apply (f_equal String.length) in C. simpl in C.
    destruct sign, ds1; simpl in C; discriminate.
  - unfold bytes_of_string, string_of_bytes.
    now rewrite list_ascii_of_string_of_list_ascii.
  - apply ParseFloat_signed_decimal; auto. lia.
Qed.

(** ** The read loop of DirectCommand *)

Lemma overlay_length evs : forall buf, length (overlay buf evs) = length buf.
Proof.
  induction evs as [|ev evs IH]; intros buf; simpl; auto.
  unfold overlay in *. simpl. rewrite IH.
  destruct ev; simpl; auto using copy_length.
Qed.

Lemma overlay_app buf p q : overlay buf (p ++ q) = overlay (overlay buf p) q.
Proof. unfold overlay. apply fold_left_app. Qed.

Lemma elapsed_app p q : elapsed (p ++ q) = elapsed p + elapsed q.
Proof.
  unfold elapsed. induction p as [|ev p IH]; simpl; [reflexivity|].
  fold (elapsed (p ++ q)) in *. fold (elapsed p) in *. lia.
Qed.

Lemma latency_nonneg ev : 0 <= latency ev.
Proof. destruct ev; simpl; lia. Qed.

Lemma elapsed_nonneg evs : 0 <= elapsed evs.
Proof.
  induction evs as [|ev evs IH]; simpl; [lia|].
  pose proof (latency_nonneg ev). fold (elapsed evs). lia.
Qed.


Lemma Since_lt_iff now start d :
  Time.minDuration < d <= Time.maxDuration ->
  (Time.Since now start <? d) = true <-> now - start < d.
Proof.
  unfold Time.Since, Time.maxDuration, Time.minDuration. intros Hd.
  rewrite Z.ltb_lt. lia.
Qed.

(** The two loops take the reads to come as a list; one turn of each is one
    [connection.Read(buf)]. *)
Lemma await_turn regex start c buf m :
  await regex start (incoming c) (now c) buf m =
  if negb m && (Time.Since (now c) start <? timeout) then
    match Read c buf with
    | (_, Some e, c') => ReadFailed e (incoming c') (now c')
    | (buf', None, c') =>
        await regex start (incoming c') (now c') buf' (Regexp.Match regex buf')
    end
  else LoopExit buf m (incoming c) (now c).
Proof.
  unfold Read. destruct (incoming c) as [|ev evs] eqn:E; cbn [await].
  - now rewrite E.
  - destruct (receive ev buf) as [buf' [e|]]; reflexivity.
Qed.

Lemma acquire_turn n timeout_ start c buf i wl :
  acquire n timeout_ start (incoming c) (now c) buf i wl =
  if (i <? n) && (Time.Since (now c) start <? timeout_) then
    match Read c buf with
    | (_, Some e, c') => LoopReturned e (incoming c') (now c')
    | (buf', None, c') =>
        if Regexp.Match weightRegex buf' then
          let result := Regexp.FindStringSubmatch weightRegex (string_of_bytes buf') in
          match index result 1 with
          | Panics msg => LoopPanicked msg
          | Returns r1 =>
              match Strconv.ParseFloat r1 with
              | (_, Some e) => LoopReturned e (incoming c') (now c')
              | (weightValue, None) =>
                  match index result 2 with
                  | Panics msg => LoopPanicked msg
                  | Returns r2 =>
                      acquire n timeout_ start (incoming c') (now c') buf' (i + 1)
                              (wl ++ [Measurement.Build weightValue r2])
                  end
              end
          end
        else acquire n timeout_ start (incoming c') (now c') buf' i wl
    end
  else LoopDone wl (incoming c) (now c).
Proof.
  unfold Read. destruct (incoming c) as [|ev evs] eqn:E; cbn [acquire];
    [now rewrite E|].
  destruct (receive ev buf) as [buf' [e|]]; cbn [incoming now]; [reflexivity|].
  destruct (Regexp.Match weightRegex buf'); [|reflexivity].
  destruct (index _ 1); [|reflexivity].
  destruct (Strconv.ParseFloat a) as [v [e|]]; reflexivity.
Qed.

(** The loop on a line whose ending is given is the same turn, around a
    [Read] that may not return. *)
Lemma await_on_turn line regex start c buf m :
  await_on line regex start (incoming c) (now c) buf m =
  if negb m && (Time.Since (now c) start <? timeout) then
    match Read_on line c buf with
    | None => None
    | Some (_, Some e, c') => Some (ReadFailed e (incoming c') (now c'))
    | Some (buf', None, c') =>
        await_on line regex start (incoming c') (now c') buf' (Regexp.Match regex buf')
    end
  else Some (LoopExit buf m (incoming c) (now c)).
Proof.
  unfold Read_on, Read. destruct (incoming c) as [|ev evs] eqn:E; cbn [await_on].
  - destruct line; [now rewrite E|reflexivity].
  - destruct (receive ev buf) as [buf' [e|]]; reflexivity.
Qed.

(** When the loop is left by its condition: the reads it has used all
    delivered, the buffer is their overlay, the flag is the last test, and no
    test before the last one succeeded. *)
Lemma await_exit regex start : forall evs t buf m buf' m' evs' t',
  await regex start evs t buf m = LoopExit buf' m' evs' t' ->
  exists used,
    evs = used ++ evs' /\
    forallb delivery used = true /\
    buf' = overlay buf used /\
    t' = t + elapsed used /\
    m' = match used with [] => m | _ => Regexp.Match regex buf' end /\
    negb m && (Time.Since t start <? timeout) =
      match used with [] => false | _ => true end /\
    (forall p q, used = p ++ q -> p <> [] -> q <> [] ->
                 Regexp.Match regex (overlay buf p) = false).
Proof.
  induction evs as [|ev evs IH]; intros t buf m buf' m' evs' t' H; cbn [await] in H.
  - destruct (negb m && (Time.Since t start <? timeout)) eqn:C; [discriminate|].
    inversion H; subst. exists []. cbn. repeat split; auto; try lia.
    intros p q E. symmetry in E. apply app_eq_nil in E. tauto.
  - destruct (negb m && (Time.Since t start <? timeout)) eqn:C.
    + destruct ev as [lat data|lat e]; cbn [receive latency] in H; [|discriminate].
      apply IH in H. destruct H as (used & -> & Hd & -> & -> & -> & Hm & Hno).
      exists (Delivers lat data :: used). cbn. fold (elapsed used).
      repeat split; auto; try lia.
      * destruct used; reflexivity.
      * intros p q E Hp Hq. destruct p as [|ev p]; [congruence|].
        simpl in E. inversion E; subst. destruct p as [|ev' p].
        -- cbn. destruct q as [|ev' q]; [congruence|]. simpl in Hm.
           destruct (Regexp.Match regex (copy buf data)); [discriminate|reflexivity].
        -- change (Regexp.Match regex
                     (overlay (copy buf data) (ev' :: p)) = false).
           eapply Hno; eauto. discriminate.
    + inversion H; subst. exists []. cbn. repeat split; auto; try lia.
      intros p q E. symmetry in E. apply app_eq_nil in E. tauto.
Qed.

(** When a read fails: it is the line's own error, or its end. *)
Lemma await_failed regex start : forall evs t buf m e evs' t',
  await regex start evs t buf m = ReadFailed e evs' t' ->
  exists used,
    forallb delivery used = true /\
    ((evs = used /\ e = EOF /\ evs' = [] /\ t' = t + elapsed used) \/
     (exists lat, evs = used ++ Fails lat e :: evs' /\
                  t' = t + elapsed used + Z.of_N lat)).
Proof.
  induction evs as [|ev evs IH]; intros t buf m e evs' t' H; cbn [await] in H.
  - destruct (negb m && (Time.Since t start <? timeout)); [|discriminate].
    inversion H; subst. exists []. split; auto. left. simpl. repeat split; lia.
  - destruct (negb m && (Time.Since t start <? timeout)); [|discriminate].
    destruct ev as [lat data|lat e0]; simpl in H.
    + apply IH in H. destruct H as (used & Hd & [(-> & -> & -> & ->)|(l & -> & ->)]).
      * exists (Delivers lat data :: used). split; auto. left. simpl.
        repeat split; auto. fold (elapsed used). lia.
      * exists (Delivers lat data :: used). split; auto. right. exists l. simpl.
        split; auto. fold (elapsed used). lia.
    + inversion H; subst. exists []. split; auto. right. exists lat. simpl.
      split; auto. lia.
Qed.


Lemma overlay_cons buf ev p : overlay buf (ev :: p) = overlay (fst (receive ev buf)) p.
Proof. reflexivity. Qed.

Lemma elapsed_cons ev p : elapsed (ev :: p) = latency ev + elapsed p.
Proof. reflexivity. Qed.

Lemma timeout_is_a_Duration : Time.minDuration < timeout <= Time.maxDuration.
Proof. unfold timeout, Time.minDuration, Time.maxDuration, Time.Second. lia. Qed.

(** Reads that deliver, none of which makes the buffer match, each started
    before the deadline: the loop goes through them. *)
Lemma await_forward regex start used : forall rest t buf,
  forallb delivery used = true ->
  (forall p q, used = p ++ q -> p <> [] -> Regexp.Match regex (overlay buf p) = false) ->
  (forall p q, used = p ++ q -> q <> [] -> t + elapsed p - start < timeout) ->
  await regex start (used ++ rest) t buf false =
  await regex start rest (t + elapsed used) (overlay buf used) false.
Proof.
  induction used as [|ev used IH]; intros rest t buf Hd Hno Ht.
  - simpl. now rewrite Z.add_0_r.
  - destruct ev as [lat data|lat e]; [|discriminate].
    cbn [forallb delivery andb] in Hd.
    simpl app. cbn [await receive latency negb andb].
    replace (Time.Since t start <? timeout) with true.
    2:{ symmetry. apply (Since_lt_iff t start timeout timeout_is_a_Duration).
        specialize (Ht [] (Delivers lat data :: used) eq_refl).
        cbn [elapsed fold_right] in Ht. rewrite Z.add_0_r in Ht.
        apply Ht. discriminate. }
    replace (Regexp.Match regex (copy buf data)) with false
      by (symmetry; apply (Hno [Delivers lat data] used eq_refl); discriminate).
    rewrite IH; auto.
    + rewrite elapsed_cons, overlay_cons. cbn [receive fst latency].
      f_equal. lia.
    + intros p q E Hp. apply (Hno (Delivers lat data :: p) q); [|discriminate].
      simpl. now rewrite E.
    + intros p q E Hq.
      specialize (Ht (Delivers lat data :: p) q). rewrite elapsed_cons in Ht.
      cbn [latency] in Ht. rewrite <- Z.add_assoc. apply Ht; auto.
      simpl. now rewrite E.
Qed.

Lemma elapsed_prefix p q : elapsed p <= elapsed (p ++ q).
Proof. rewrite elapsed_app. pose proof (elapsed_nonneg q). lia. Qed.


(** ** DirectCommand *)

(** The call, case by case: the write fails; or the loop runs from the
    connection's clock on a zeroed buffer of 128 bytes. *)
Lemma DirectCommand_spec c command regex :
  let line := bytes_of_string (command ++ CRLF) in
  let after evs t := Conn.Build t evs (tl (wresults c)) (written c ++ [line]) in
  DirectCommand c command regex =
  match hd None (wresults c) with
  | Some e => ([], Some e, after (incoming c) (now c))
  | None =>
      match await regex (now c) (incoming c) (now c) (make 128) false with
      | ReadFailed e evs t => ([], Some e, after evs t)
      | LoopExit buf m evs t =>
          (buf,
           if m then None
           else Some (errorString
                        ("command '" ++ command ++ "' timed-out, want: "
                           ++ Regexp.String regex ++ ", got: " ++ string_of_bytes buf)),
           after evs t)
      end
  end.
Proof.
  unfold DirectCommand, Write. destruct (wresults c) as [|[e|] ws]; reflexivity.
Qed.

Lemma Since_start t : (Time.Since t t <? timeout) = true.
Proof. unfold Time.Since. rewrite Z.sub_diag. reflexivity. Qed.

(** Every call writes exactly its command line, once. *)
Lemma DirectCommand_written c command regex :
  written (snd (DirectCommand c command regex)) =
  written c ++ [bytes_of_string (command ++ CRLF)].
Proof.
  rewrite DirectCommand_spec. destruct (hd None (wresults c)); [reflexivity|].
  destruct (await regex (now c) (incoming c) (now c) (make 128) false); reflexivity.
Qed.

(** A reply that one read delivers and that makes the buffer match ends the
    call at once. *)
Lemma DirectCommand_first_read c command regex lat data rest :
  hd None (wresults c) = None ->
  incoming c = Delivers lat data :: rest ->
  Regexp.Match regex (copy (make 128) data) = true ->
  DirectCommand c command regex =
  (copy (make 128) data, None,
   Conn.Build (now c + Z.of_N lat) rest (tl (wresults c))
              (written c ++ [bytes_of_string (command ++ CRLF)])).
Proof.
  intros Hw Hin HM. rewrite DirectCommand_spec, Hw, Hin. cbn [await].
  rewrite Since_start. cbn [negb andb receive latency]. rewrite HM.
  destruct rest; reflexivity.
Qed.

(** A call that succeeds and leaves all but the first read on the line has
    matched on the first read. *)
Lemma DirectCommand_one_read c command regex lat reply rest buf c' :
  hd None (wresults c) = None ->
  incoming c = Delivers lat reply :: rest ->
  DirectCommand c command regex = (buf, None, c') ->
  incoming c' = rest ->
  Regexp.Match regex (copy (make 128) reply) = true.
Proof.
  intros Hw Hin H Hrest.
  destruct (Regexp.Match regex (copy (make 128) reply)) eqn:HM; auto. exfalso.
  rewrite DirectCommand_spec, Hw, Hin in H. cbn [await receive latency] in H.
  rewrite Since_start, HM in H. cbn [negb andb] in H.
  destruct (await regex (now c) rest (now c + Z.of_N lat) (copy (make 128) reply) false)
    as [b m evs t|e evs t] eqn:E; [|discriminate].
  destruct m; [|discriminate]. inversion H; subst; clear H. cbn [incoming] in *.
  apply await_exit in E. destruct E as (used & Hu & _ & _ & _ & Hm & _).
  destruct used as [|ev used]; [discriminate|].
  apply (f_equal (@length _)) in Hu. rewrite length_app in Hu. simpl in Hu. lia.
Qed.


(** *** C1: the buffer is overwritten, not accumulated *)


(** A call that returns without error returns 128 bytes that match. *)
Lemma DirectCommand_success c command regex buf c' :
  DirectCommand c command regex = (buf, None, c') ->
  length buf = 128%nat /\ Regexp.Match regex buf = true.
Proof.
  rewrite DirectCommand_spec. destruct (hd None (wresults c)); [discriminate|].
  destruct (await regex (now c) (incoming c) (now c) (make 128) false)
    as [buf1 m evs t|e evs t] eqn:E; [|discriminate].
  intros H. destruct m; [|discriminate]. inversion H; subst; clear H.
  apply await_exit in E.
  destruct E as (used & _ & _ & Hbuf & _ & Hm & Hc & _).
  rewrite Since_start in Hc. cbn [negb andb] in Hc.
  destruct used; [discriminate|]. split; auto.
  rewrite Hbuf, overlay_length. apply make_length.
Qed.



(** The call of the witness: the reply is the third read, and the buffer
    returned holds it in front of what is left of the first read. *)
Example DirectCommand_reply_over_earlier_reads :
  DirectCommand
    (fresh [says ms ("I4 A " ++ quote ++ "B123456789" ++ quote ++ CRLF);
            says (2000 * ms) ("ES" ++ CRLF);
            says ms ("PWR A" ++ CRLF); says ms "left over"])
    "PWR 1" pwrRegex =
  (bytes_of_string ("PWR A" ++ CRLF ++ "123456789" ++ quote ++ CRLF) ++ make 109, None,
   Conn.Build 2002000000 [says ms "left over"] [] [bytes_of_string ("PWR 1" ++ CRLF)]).
Proof. vm_compute. reflexivity. Qed.

(** *** C5: how a call ends *)




(** A silent line: while no buffer matches and the deadline has not passed,
    the loop asks for the next read, and the one that finds the line silent
    does not return. *)
Lemma DirectCommand_on_silent_line c command regex :
  hd None (wresults c) = None ->
  forallb delivery (incoming c) = true ->
  (forall p q, incoming c = p ++ q -> p <> [] ->
               Regexp.Match regex (overlay (make 128) p) = false) ->
  elapsed (incoming c) < timeout ->
  DirectCommand_on Silent c command regex = None.
Proof.
  intros Hw Hd Hno Ht. unfold DirectCommand_on, Write.
  assert (forall evs t buf,
            forallb delivery evs = true ->
            (forall p q, evs = p ++ q -> p <> [] -> Regexp.Match regex (overlay buf p) = false) ->
            now c <= t -> t - now c + elapsed evs < timeout ->
            await_on Silent regex (now c) evs t buf false = None) as A.
  { induction evs as [|ev evs IH]; intros t buf Hd' Hno' Hst Ht'; cbn [await_on negb andb].
    - replace (Time.Since t (now c) <? timeout) with true; [reflexivity|].
      symmetry. apply (Since_lt_iff _ _ _ timeout_is_a_Duration).
      cbn [elapsed fold_right] in Ht'. lia.
    - pose proof (elapsed_nonneg evs) as He. rewrite elapsed_cons in Ht'.
      pose proof (latency_nonneg ev) as Hl.
      replace (Time.Since t (now c) <? timeout) with true
        by (symmetry; apply (Since_lt_iff _ _ _ timeout_is_a_Duration); lia).
      destruct ev as [lat data|lat e]; [|discriminate].
      cbn [forallb delivery andb] in Hd'. cbn [receive latency] in *.
      replace (Regexp.Match regex (copy buf data)) with false
        by (symmetry; apply (Hno' [Delivers lat data] evs eq_refl); discriminate).
      apply IH; auto; try lia.
      intros p q E Hp. apply (Hno' (Delivers lat data :: p) q); [|discriminate].
      simpl. now rewrite E. }
  destruct (wresults c) as [|[e|] ws]; try discriminate; cbn [now incoming];
    rewrite A; auto; lia.
Qed.




(** One reply that does not match, and then nothing: on a silent line the
    call waits in its second read for ever, on a closed line it gets the end
    of the line. *)
Example DirectCommand_on_a_line_that_falls_silent :
  DirectCommand_on Silent (fresh [says ms "PW"]) "PWR 1" pwrRegex = None /\
  DirectCommand_on Closed (fresh [says ms "PW"]) "PWR 1" pwrRegex =
    Some ([], Some EOF, Conn.Build 1000000 [] [] [bytes_of_string ("PWR 1" ++ CRLF)]).
Proof. split; vm_compute; reflexivity. Qed.

(** *** C9: Weight and Tare, after a successful DirectCommand *)

Lemma measurement_ops_pattern op command regex :
  In (op, command, regex) measurement_ops -> measurement_pattern regex.
Proof.
  intros [H|[H|[]]]; inversion H; subst; eexists; split; reflexivity.
Qed.

(** C9: in Weight and in Tare, when DirectCommand has succeeded, the
    submatches are the whole match, the number and the unit, so that
    [result[1]] and [result[2]] exist; the number is a non-empty signed
    decimal; ParseFloat returns no error on it; and the operation returns
    the measurement with no error. *)
Theorem Weight_Tare_conversion_cannot_fail op command regex c buf c' :
  In (op, command, regex) measurement_ops ->
  DirectCommand c command regex = (buf, None, c') ->
  exists whole num unit_,
    Regexp.FindStringSubmatch regex (string_of_bytes buf) = [whole; num; unit_] /\
    num <> ""%string /\
    signed_decimal (bytes_of_string num) /\
    snd (Strconv.ParseFloat num) = None /\
    op c = Returns (Measurement.Build (fst (Strconv.ParseFloat num)) unit_, None, c').
Proof.
  intros Hop HD.
  destruct (DirectCommand_success _ _ _ _ _ HD) as (Hlen & HM).
  destruct (measurement_reply regex buf (measurement_ops_pattern _ _ _ Hop) HM)
    as (whole & num & unit_ & E & Hne & Hnum & Hparse); [lia|].
  exists whole, num, unit_. repeat split; auto.
  destruct Hop as [H|[H|[]]]; inversion H; subst; clear H.
  - unfold Weight. rewrite HD, E. cbn [index nth_error].
    destruct (Strconv.ParseFloat num) as [v err]. simpl in Hparse. subst err.
    reflexivity.
  - unfold Tare. rewrite HD, E. cbn [index nth_error].
    destruct (Strconv.ParseFloat num) as [v err]. simpl in Hparse. subst err.
    reflexivity.
Qed.

Lemma Weight_Tare_conversion_cannot_fail_witness :
  let c := fresh [says ms ("S S    12.34 g" ++ CRLF)] in
  let buf := copy (make 128) (bytes_of_string ("S S    12.34 g" ++ CRLF)) in
  let c' := Conn.Build 1000000 [] [] [bytes_of_string ("S" ++ CRLF)] in
  exists whole num unit_,
    Regexp.FindStringSubmatch weightRegexS (string_of_bytes buf) = [whole; num; unit_] /\
    num <> ""%string /\
    signed_decimal (bytes_of_string num) /\
    snd (Strconv.ParseFloat num) = None /\
    Weight c = Returns (Measurement.Build (fst (Strconv.ParseFloat num)) unit_, None, c').
Proof.
  intros c buf c'.
  apply (Weight_Tare_conversion_cannot_fail Weight "S" weightRegexS c buf c').
  - simpl. auto.
  - vm_compute. reflexivity.
Defined.

(** *** C4 and C10: WeightOnKey and its errors *)

(** C4: with both bounds zero the call returns the error at once; the
    connection it returns is the one it was given, nothing has been written
    or read. *)
Theorem WeightOnKey_rejects_unbounded intOfInf c :
  WeightOnKey intOfInf c 0 0 =
  Returns ([], Some (errorString "timeout and numMeasurements cannot both be infinite (0)"), c).
Proof. reflexivity. Qed.

(** C10: whenever WeightOnKey returns an error, the list it returns is
    empty. *)
Theorem WeightOnKey_error_returns_no_measurements intOfInf c numMeasurements timeout_ l e c' :
  WeightOnKey intOfInf c numMeasurements timeout_ = Returns (l, Some e, c') ->
  l = [].
Proof.
  unfold WeightOnKey.
  destruct ((timeout_ =? 0) && (numMeasurements =? 0)); [congruence|].
  destruct (DirectCommand c "ST 1" _) as [[ack [e1|]] c1]; [congruence|].
  destruct (acquire _ _ _ _ _ _ _ _) as [wl evs t|e2 evs t|msg]; try congruence.
  destruct (DirectCommand _ "ST 0" _) as [[? ?] ?]. congruence.
Qed.

Lemma WeightOnKey_error_returns_no_measurements_witness :
  @nil Measurement.t = [].
Proof.
  apply (WeightOnKey_error_returns_no_measurements 0
           (fresh [says ms ("ST A" ++ CRLF); says ms "ST 1.5 g"; Fails ms (errorString "unplugged")])
           3 0 [] (errorString "unplugged")
           (Conn.Build 3000000 [] [] [bytes_of_string ("ST 1" ++ CRLF)])).
  vm_compute. reflexivity.
Defined.

(** *** C2: the stop command is deferred too late *)

(** A call that returns an error has written the start command at most:
    the [defer] that sends the stop command is only reached when the loop has
    ended by its condition. *)
Lemma WeightOnKey_error_written intOfInf c numMeasurements timeout_ l e c' :
  WeightOnKey intOfInf c numMeasurements timeout_ = Returns (l, Some e, c') ->
  written c' = written c \/
  written c' = written c ++ [bytes_of_string ("ST 1" ++ CRLF)].
Proof.
  unfold WeightOnKey.
  destruct ((timeout_ =? 0) && (numMeasurements =? 0)); [left; congruence|].
  pose proof (DirectCommand_written c "ST 1" initRegex) as W.
  destruct (DirectCommand c "ST 1" _) as [[ack [e1|]] c1]; cbn [snd] in W.
  - intros H. inversion H; subst. right. exact W.
  - destruct (acquire _ _ _ _ _ _ _ _) as [wl evs t|e2 evs t|msg]; try congruence.
    + destruct (DirectCommand _ "ST 0" _) as [[? ?] ?]. congruence.
    + intros H. inversion H; subst. right. exact W.
Qed.

(** C2 fails on the code: the start command is acknowledged, one frame is
    collected, the next read fails.  The call returns the read's error, and
    all that has been written is the start command: no [ST 0]. *)
Theorem WeightOnKey_read_failure_sends_no_stop :
  WeightOnKey 0
    (fresh [says ms ("ST A" ++ CRLF); says ms "ST 1.5 g"; Fails ms (errorString "unplugged")])
    3 0 =
  Returns ([], Some (errorString "unplugged"),
           Conn.Build 3000000 [] [] [bytes_of_string ("ST 1" ++ CRLF)]).
Proof. vm_compute. reflexivity. Qed.

(** *** C3: GetDoorStatus *)

(** The pattern [WS] has no group, so there is no [result[1]]: the call
    either returns DirectCommand's error or panics. *)
Lemma GetDoorStatus_never_succeeds c :
  GetDoorStatus c = Panics "index out of range" \/
  exists e c', GetDoorStatus c = Returns (""%string, Some e, c').
Proof.
  unfold GetDoorStatus.
  destruct (DirectCommand c _ _) as [[buf [e|]] c']; [right; eauto|left].
  unfold Regexp.FindStringSubmatch, Regexp.FindSubmatch.
  destruct (Regexp.doExecute _ _); reflexivity.
Qed.

(** C3 fails on the code: on each of the replies [WS 0] to [WS 9] the call
    panics. *)
Theorem GetDoorStatus_panics_on_every_status :
  Forall (fun d => GetDoorStatus (fresh [says ms ("WS " ++ d ++ CRLF)])
                   = Panics "index out of range")
         ["0"; "1"; "2"; "3"; "4"; "5"; "6"; "7"; "8"; "9"]%string.
Proof. repeat constructor. Qed.

(** *** C6: SetTarget *)

(** C6: with 12.5, "g", 0.1, 0.2 and absolute tolerances, SetTarget sends
    [A10 0 12.50 g], then [A10 1 0.10 g], then [A10 2 0.20 g], each followed
    by the line end and each waiting for [A10 A]; the first of them that fails
    ends the call with its error, nothing more is written; on a line that
    acknowledges all three, these three lines are what is written. *)
Theorem SetTarget_sends_three_commands c :
  let SetTarget_ c :=
    SetTarget c (float_lit 125 (-1)) "g" (float_lit 1 (-1)) (float_lit 2 (-1)) false in
  let l1 := bytes_of_string ("A10 0 12.50 g" ++ CRLF) in
  let l2 := bytes_of_string ("A10 1 0.10 g" ++ CRLF) in
  let l3 := bytes_of_string ("A10 2 0.20 g" ++ CRLF) in
  let r1 := DirectCommand c "A10 0 12.50 g" a10Regex in
  let r2 := DirectCommand (snd r1) "A10 1 0.10 g" a10Regex in
  let r3 := DirectCommand (snd r2) "A10 2 0.20 g" a10Regex in
  match snd (fst r1) with
  | Some e => SetTarget_ c = (Some e, snd r1) /\ written (snd r1) = written c ++ [l1]
  | None =>
      match snd (fst r2) with
      | Some e => SetTarget_ c = (Some e, snd r2) /\ written (snd r2) = written c ++ [l1; l2]
      | None => SetTarget_ c = (snd (fst r3), snd r3) /\
                written (snd r3) = written c ++ [l1; l2; l3]
      end
  end /\
  SetTarget_ (fresh [says ms "A10 A"; says ms "A10 A"; says ms "A10 A"]) =
  (None, Conn.Build 3000000 [] [] [l1; l2; l3]).
Proof.
  intros SetTarget_ l1 l2 l3 r1 r2 r3. split; [|vm_compute; reflexivity].
  assert (E1 : ("A10 0 " ++ Strconv.FormatFloat (float_lit 125 (-1)) 2 ++ " " ++ "g" ++ "")%string
               = "A10 0 12.50 g"%string) by (vm_compute; reflexivity).
  assert (E2 : ("A10 1 " ++ Strconv.FormatFloat (float_lit 1 (-1)) 2 ++ " " ++ "g" ++ "")%string
               = "A10 1 0.10 g"%string) by (vm_compute; reflexivity).
  assert (E3 : ("A10 2 " ++ Strconv.FormatFloat (float_lit 2 (-1)) 2 ++ " " ++ "g" ++ "")%string
               = "A10 2 0.20 g"%string) by (vm_compute; reflexivity).
  pose proof (DirectCommand_written c "A10 0 12.50 g" a10Regex) as W1.
  pose proof (DirectCommand_written (snd r1) "A10 1 0.10 g" a10Regex) as W2.
  pose proof (DirectCommand_written (snd r2) "A10 2 0.20 g" a10Regex) as W3.
  fold r1 in W1. fold r2 in W2. fold r3 in W3.
  unfold SetTarget_, SetTarget. rewrite E1, E2, E3. fold a10Regex. fold r1.
  destruct r1 as [[b1 [e1|]] c1] eqn:R1; cbn [fst snd] in *.
  - split; auto.
  - fold r2. destruct r2 as [[b2 [e2|]] c2] eqn:R2; cbn [fst snd] in *.
    + split; auto. rewrite W2, W1, <- app_assoc. reflexivity.
    + fold r3. destruct r3 as [[b3 e3] c3] eqn:R3; cbn [fst snd] in *.
      split; auto. rewrite W3, W2, W1, <- !app_assoc. reflexivity.
Qed.

(** *** C8: the toggles accept A and L, and nothing else *)

Lemma in_class_AL x : Regexp.in_class [("A"%char, "A"%char); ("L"%char, "L"%char)] x = true ->
                      x = "A"%char \/ x = "L"%char.
Proof.
  unfold Regexp.in_class, Regexp.in_range. cbn [existsb fst snd]. rewrite orb_false_r.
  intros H. apply orb_prop in H.
  destruct H as [H|H]; apply andb_prop in H; destruct H as [H1 H2];
    apply N.leb_le in H1, H2; [left|right].
  - assert (E : N_of_ascii x = 65%N) by (change (N_of_ascii "A") with 65%N in *; lia).
    now rewrite <- (ascii_N_embedding x), E.
  - assert (E : N_of_ascii x = 76%N) by (change (N_of_ascii "L") with 76%N in *; lia).
    now rewrite <- (ascii_N_embedding x), E.
Qed.

(** What a toggle pattern matches: the verb, a blank, and A or L. *)
Lemma toggle_Lang head w :
  Regexp.Lang (Regexp.Cat (Regexp.Str head) Regexp.AL) w <->
  exists l, (l = "A"%char \/ l = "L"%char) /\ w = bytes_of_string head ++ [l].
Proof.
  split.
  - intros (c & c' & H).
    inversion H as [ | | |? ? w1 w2 ? c1 ? H1 H2| | | | | ]; subst; clear H.
    apply Sem_Str_inv in H1. destruct H1 as [-> ->].
    inversion H2; subst. eauto using in_class_AL.
  - intros (l & Hl & ->). exists Regexp.no_captures, Regexp.no_captures.
    econstructor; [apply Sem_Str|]. constructor.
    destruct Hl; subst; reflexivity.
Qed.

(** A text without zero bytes that lies in [reply] followed by zero bytes
    lies in [reply]. *)
Lemma within_reply pre w post reply n :
  pre ++ w ++ post = reply ++ repeat NUL n -> w <> [] -> ~ In NUL w ->
  exists post', reply = pre ++ w ++ post'.
Proof.
  intros E Hw Hnul. rewrite app_assoc in E. apply app_eq_app in E.
  destruct E as (l & [[E1 E2]|[E1 E2]]).
  - destruct (exists_last Hw) as (w' & y & ->).
    destruct l as [|z l]; [exists []; now rewrite !app_nil_r in *|].
    exfalso. destruct (@exists_last _ (z :: l) ltac:(discriminate)) as (l' & z' & El).
    rewrite El in *. rewrite !app_assoc in E1. apply app_inj_tail in E1.
    destruct E1 as [_ ->]. apply Hnul.
    assert (z' = NUL).
    { apply (repeat_spec n NUL). rewrite E2. apply in_or_app. left.
      apply in_or_app. right. now left. }
    subst. apply in_or_app. right. now left.
  - exists l. now rewrite E1, <- app_assoc.
Qed.

(** A buffer matches a toggle pattern exactly when it carries the verb with A
    or with L. *)
Lemma toggle_match_buffer verb regex :
  (regex = pwrRegex /\ verb = "PWR"%string) \/ (regex = wsRegex /\ verb = "WS"%string) ->
  forall buf, Regexp.Match regex buf = true <->
              carries verb "A" buf \/ carries verb "L" buf.
Proof.
  intros Hre buf.
  assert (Hprog : Regexp.prog regex = Regexp.Cat (Regexp.Str (verb ++ " ")) Regexp.AL)
    by (destruct Hre as [[-> ->]|[-> ->]]; reflexivity).
  rewrite Regexp_Match_iff, Hprog. split.
  - intros (pre & w & post & -> & Hw). apply toggle_Lang in Hw.
    destruct Hw as (l & Hl & ->).
    destruct Hl; subst l; [left|right]; exists pre, post; now rewrite <- app_assoc.
  - intros [(pre & post & ->)|(pre & post & ->)].
    + exists pre, (bytes_of_string (verb ++ " ") ++ ["A"%char]), post.
      split; [now rewrite <- !app_assoc|]. apply toggle_Lang. eauto.
    + exists pre, (bytes_of_string (verb ++ " ") ++ ["L"%char]), post.
      split; [now rewrite <- !app_assoc|]. apply toggle_Lang. eauto.
Qed.




(** The toggles on an acknowledgement, on a reply that says the state is
    already as asked, and on a reply that is neither. *)
Example toggle_replies :
  PowerOn (fresh [says ms ("PWR A" ++ CRLF)]) =
    (None, Conn.Build 1000000 [] [] [bytes_of_string ("PWR 1" ++ CRLF)]) /\
  PowerOff (fresh [says ms ("PWR L" ++ CRLF)]) =
    (None, Conn.Build 1000000 [] [] [bytes_of_string ("PWR 0" ++ CRLF)]) /\
  CloseAllDoors (fresh [says (5000 * ms) ("WS I" ++ CRLF)]) =
    (Some (timed_out "WS 0" wsRegex (copy (make 128) (bytes_of_string ("WS I" ++ CRLF)))),
     Conn.Build 5000000000 [] [] [bytes_of_string ("WS 0" ++ CRLF)]).
Proof. repeat split; vm_compute; reflexivity. Qed.

(** *** C7: WeightOnKey with a target count *)



Lemma weightRegex_pattern : measurement_pattern weightRegex.
Proof. exists "ST"%string. split; reflexivity. Qed.




Lemma hits_app p q : forall buf, hits buf (p ++ q) = (hits buf p + hits (overlay buf p) q)%nat.
Proof.
  induction p as [|ev p IH]; intros buf; [reflexivity|].
  simpl app. cbn [hits]. rewrite IH. unfold overlay. simpl. lia.
Qed.

(** Once the count is reached the loop is over, whatever is still to come. *)
Lemma acquire_done n timeout_ start evs t buf i wl :
  n <= i -> acquire n timeout_ start evs t buf i wl = LoopDone wl evs t.
Proof.
  intros H. destruct evs; cbn [acquire];
    replace (i <? n) with false by (symmetry; apply Z.ltb_ge; lia); reflexivity.
Qed.






(** The call of the witness: the first weight twice, then the second. *)
Example WeightOnKey_witness_run :
  let frame_ (w : string) := says ms ("ST     " ++ w ++ " g" ++ CRLF) in
  WeightOnKey 0
    (fresh [says ms ("ST A" ++ CRLF); frame_ "1.50"%string; says ms "ST  ";
            frame_ "2.50"%string; frame_ "3.50"%string; frame_ "4.50"%string;
            frame_ "5.50"%string; says ms ("ST A" ++ CRLF)]) 3 0 =
  Returns ([Measurement.Build (float_lit 150 (-2)) "g";
            Measurement.Build (float_lit 150 (-2)) "g";
            Measurement.Build (float_lit 250 (-2)) "g"], None,
           Conn.Build 8000000 [] []
             [bytes_of_string ("ST 1" ++ CRLF); bytes_of_string ("ST 0" ++ CRLF)]).
Proof. vm_compute. reflexivity. Qed.

(** ** The model on concrete replies *)

(** The literals of C6 as binary64 values: 12.5 is exact, 0.1 and 0.2 are
    rounded. *)
Example float_lit_values :
  float_lit 125 (-1) = S754_finite false 7036874417766400 (-49) /\
  float_lit 1 (-1) = S754_finite false 7205759403792794 (-56) /\
  float_lit 2 (-1) = S754_finite false 7205759403792794 (-55).
Proof. repeat split; vm_compute; reflexivity. Qed.

Example Weight_positive :
  Weight (fresh [says ms ("S S    12.34 g" ++ CRLF)]) =
  Returns (Measurement.Build (float_lit 1234 (-2)) "g", None,
           Conn.Build 1000000 [] [] [bytes_of_string ("S" ++ CRLF)]).
Proof. vm_compute. reflexivity. Qed.

Example Weight_negative :
  Weight (fresh [says ms ("S S   -0.02 g" ++ CRLF)]) =
  Returns (Measurement.Build (Strconv.nearest true 2 (-2)) "g", None,
           Conn.Build 1000000 [] [] [bytes_of_string ("S" ++ CRLF)]).
Proof. vm_compute. reflexivity. Qed.

(** A frame read twice: the first four bytes of the next frame arrive alone
    and leave the buffer as it was, so the same weight is counted again. *)
Example WeightOnKey_counts_a_buffer_twice :
  exists c',
    WeightOnKey 0
      (fresh [says ms ("ST A" ++ CRLF); says ms ("ST     12.34 g" ++ CRLF); says ms "ST  "])
      2 0 =
    Returns ([Measurement.Build (float_lit 1234 (-2)) "g";
              Measurement.Build (float_lit 1234 (-2)) "g"], None, c').
Proof. eexists. vm_compute. reflexivity. Qed.

Example GetUnit_reply :
  GetUnit (fresh [says ms ("M21 A 0 kg" ++ CRLF)]) 0 =
  Returns ("kg"%string, None,
           Conn.Build 1000000 [] [] [bytes_of_string ("M21 0" ++ CRLF)]).
Proof. vm_compute. reflexivity. Qed.

Example ParseFloat_errors :
  snd (Strconv.ParseFloat "12.") = None /\
  snd (Strconv.ParseFloat "1.2.3") = Some (NumError "ParseFloat" "1.2.3" ErrSyntax) /\
  snd (Strconv.ParseFloat "1e309") = Some (NumError "ParseFloat" "1e309" ErrRange) /\
  Strconv.ParseFloat "1.7976931348623157e308" =
    (S754_finite false 9007199254740991 971, None).
Proof. repeat split; vm_compute; reflexivity. Qed.

(** * Further properties of the package *)

(** ** The matcher, forwards: where greedy matching succeeds at once *)

Section Greedy.

Import Regexp.

Lemma run_Str str s c k : run (Str str) (bytes_of_string str ++ s) c k = k s c.
Proof.
  unfold Str. induction (bytes_of_string str) as [|a l IH]; simpl; auto.
  now rewrite Ascii.eqb_refl.
Qed.

(** A [+] over a one-byte step takes the whole run of bytes the step accepts,
    when what follows succeeds behind it. *)
Lemma rounds_greedy (p : ascii -> bool)
      (step : bytes -> captures -> cont -> option captures)
      (Hcons : forall x s c k, step (x :: s) c k = if p x then k s c else None)
      (Hnil : forall c k, step [] c k = None) :
  forall l rest c k fuel res,
    l <> [] -> forallb p l = true -> stops p rest = true ->
    (length (l ++ rest) < fuel)%nat ->
    k rest c = Some res ->
    rounds step k fuel (l ++ rest) c = Some res.
Proof.
  induction l as [|x l IH]; intros rest c k fuel res Hl Hp Hrest Hfuel Hk; [congruence|].
  destruct fuel as [|fuel]; [simpl in Hfuel; lia|].
  simpl in Hp. apply andb_prop in Hp. destruct Hp as [Hx Hp].
  simpl app. cbn [rounds]. rewrite Hcons, Hx.
  replace (length (l ++ rest) <? length (x :: l ++ rest))%nat with true
    by (symmetry; apply Nat.ltb_lt; simpl; lia).
  destruct l as [|x' l].
  - simpl app. replace (rounds step k fuel rest c) with (@None captures); auto.
    destruct fuel; [reflexivity|]. cbn [rounds].
    destruct rest as [|y rest]; [now rewrite Hnil|].
    rewrite Hcons. simpl in Hrest. now destruct (p y).
  - rewrite (IH rest c k fuel res); auto; [discriminate|].
    simpl in Hfuel |- *. lia.
Qed.

Lemma run_Plus_Class ranges l rest c k res :
  l <> [] -> forallb (in_class ranges) l = true -> stops (in_class ranges) rest = true ->
  k rest c = Some res ->
  run (Plus (Class ranges)) (l ++ rest) c k = Some res.
Proof.
  intros. cbn [run]. apply rounds_greedy with (p := in_class ranges); auto.
Qed.

Lemma run_Plus_Lit a l rest c k res :
  l <> [] -> forallb (fun x => Ascii.eqb x a) l = true ->
  stops (fun x => Ascii.eqb x a) rest = true ->
  k rest c = Some res ->
  run (Plus (Lit a)) (l ++ rest) c k = Some res.
Proof.
  intros. cbn [run]. apply rounds_greedy with (p := fun x => Ascii.eqb x a); auto.
Qed.

End Greedy.

Lemma Forall_forallb {A} (p : A -> bool) l :
  Forall (fun x => p x = true) l -> forallb p l = true.
Proof. induction 1; simpl; auto. rewrite H. auto. Qed.

Lemma signed_decimal_first num :
  signed_decimal num ->
  exists x num', num = x :: num' /\ (x = "-"%char \/ Strconv.is_digit x = true).
Proof.
  intros (sign & ds1 & ds2 & -> & Hsign & N1 & _ & D1 & _).
  destruct Hsign; subst sign; simpl; [|eauto].
  destruct ds1 as [|d ds1]; [congruence|]. inversion D1; subst. simpl. eauto.
Qed.

Lemma run_number num rest c k res :
  signed_decimal num -> stops Strconv.is_digit rest = true ->
  k rest c = Some res ->
  Regexp.run Regexp.number (num ++ rest) c k = Some res.
Proof.
  intros (sign & ds1 & ds2 & -> & Hsign & N1 & N2 & D1 & D2) Hrest Hk.
  assert (P1 : forallb (Regexp.in_class [("0"%char, "9"%char)]) ds1 = true).
  { apply Forall_forallb. eapply Forall_impl; [|exact D1].
    intros a. cbv beta. now rewrite in_class_digit. }
  assert (P2 : forallb (Regexp.in_class [("0"%char, "9"%char)]) ds2 = true).
  { apply Forall_forallb. eapply Forall_impl; [|exact D2].
    intros a. cbv beta. now rewrite in_class_digit. }
  unfold Regexp.number, Regexp.Seq, Regexp.digit. cbn [fold_right Regexp.run].
  rewrite <- !app_assoc. simpl app.
  assert (HK : Regexp.run (Regexp.Plus (Regexp.Class [("0"%char, "9"%char)]))
                 (ds1 ++ "."%char :: ds2 ++ rest) c
                 (fun s1 c1 =>
                    Regexp.run (Regexp.Lit ".") s1 c1
                      (fun s2 c2 =>
                         Regexp.run (Regexp.Plus (Regexp.Class [("0"%char, "9"%char)]))
                                    s2 c2 (fun s3 c3 => k s3 c3))) = Some res).
  { apply run_Plus_Class; auto.
    cbn [Regexp.run]. rewrite Ascii.eqb_refl.
    apply rounds_greedy with (p := Regexp.in_class [("0"%char, "9"%char)]); auto.
    destruct rest as [|y rest]; auto. cbn [stops] in *. now rewrite in_class_digit. }
  destruct Hsign; subst sign; simpl app.
  - destruct ds1 as [|d ds1]; [congruence|]. inversion D1 as [|? ? Hd _]; subst.
    simpl app in *. cbn [Regexp.run] in *.
    rewrite (is_digit_eqb d "-"%char Hd) by reflexivity. exact HK.
  - cbn [Regexp.run] in *. cbn [Ascii.eqb Bool.eqb]. cbv iota. rewrite HK. reflexivity.
Qed.

Lemma run_value_and_unit sp num unit_ tail c k res :
  sp <> [] -> all_blanks sp -> signed_decimal num ->
  unit_ <> [] -> all_letters unit_ -> stops is_letter tail = true ->
  k tail (Regexp.set_capture 2 unit_ (Regexp.set_capture 1 num c)) = Some res ->
  Regexp.run Regexp.value_and_unit (sp ++ num ++ " "%char :: unit_ ++ tail) c k = Some res.
Proof.
  intros Hsp Bsp Hnum Hu Lu Htail Hk.
  unfold Regexp.value_and_unit, Regexp.Seq. cbn [fold_right].
  change (Regexp.run (Regexp.Cat ?a ?b) ?s ?c0 ?k0)
    with (Regexp.run a s c0 (fun s1 c1 => Regexp.run b s1 c1 k0)).
  apply run_Plus_Lit; auto.
  - apply Forall_forallb. eapply Forall_impl; [|exact Bsp].
    intros a ->. reflexivity.
  - destruct (signed_decimal_first num Hnum) as (x & num' & -> & Hx). simpl.
    destruct Hx as [->|Hx]; [reflexivity|].
    now rewrite (is_digit_eqb x " "%char Hx).
  - cbn [Regexp.run]. apply run_number; auto.
    rewrite consumed_app. rewrite Ascii.eqb_refl.
    apply run_Plus_Class; auto.
    + apply Forall_forallb. exact Lu.
    + now rewrite consumed_app.
Qed.

Lemma search_here r s c :
  Regexp.run (Regexp.Cap 0 r) s Regexp.no_captures (fun _ c => Some c) = Some c ->
  Regexp.search r s = Some c.
Proof. intros H. destruct s; cbn [Regexp.search]; now rewrite H. Qed.

(** A buffer that starts with a measurement reply: the leftmost match is the
    reply, the number and the unit are taken whole. *)
Lemma measurement_exact re head sp num unit_ tail :
  Regexp.prog re = Regexp.Cat (Regexp.Str head) Regexp.value_and_unit ->
  Regexp.numSubexp re = 2%nat ->
  sp <> [] -> all_blanks sp -> signed_decimal num ->
  unit_ <> [] -> all_letters unit_ -> stops is_letter tail = true ->
  let whole := bytes_of_string head ++ sp ++ num ++ " "%char :: unit_ in
  Regexp.Match re (whole ++ tail) = true /\
  Regexp.FindSubmatch re (whole ++ tail) = [whole; num; unit_].
Proof.
  intros Hprog Hn Hsp Bsp Hnum Hu Lu Htail whole.
  assert (E : Regexp.doExecute re (whole ++ tail) =
              Some (Regexp.set_capture 0 whole
                      (Regexp.set_capture 2 unit_
                         (Regexp.set_capture 1 num Regexp.no_captures)))).
  { assert (Ew : whole ++ tail =
                 bytes_of_string head ++ sp ++ num ++ " "%char :: unit_ ++ tail)
      by (unfold whole; now repeat (rewrite <- app_assoc || rewrite <- app_comm_cons)).
    unfold Regexp.doExecute. rewrite Hprog. apply search_here. cbn [Regexp.run].
    set (K := fun (s0 : bytes) (c0 : Regexp.captures) =>
                Some (Regexp.set_capture 0 (Regexp.consumed (whole ++ tail) s0) c0)).
    rewrite Ew, run_Str.
    apply run_value_and_unit; auto.
    unfold K. now rewrite consumed_app. }
  unfold Regexp.Match, Regexp.FindSubmatch. rewrite E, Hn. split; reflexivity.
Qed.

(** A reply read into the zeroed buffer is followed by zero bytes. *)
Lemma stops_zero_padded cls tail n :
  cls NUL = false -> stops cls tail = true -> stops cls (tail ++ make n) = true.
Proof.
  intros Hnul H. destruct tail as [|y tail]; [|exact H].
  destruct n; simpl; auto. now rewrite Hnul.
Qed.

(** *** X1: Weight and Tare read the reply they are sent *)

(** X1: the reply to [S] (to [T]) is the head [S S] ([T S]), one or more
    blanks, a signed decimal, a blank, a unit of letters, and then anything
    that does not go on with a letter (the line end, say); it arrives in the
    first read and fits the buffer.  Then Weight (Tare) returns no error and
    the measurement whose weight is the conversion of exactly that decimal
    and whose unit is exactly that unit, having written its command and used
    that one read. *)
Theorem measurement_reply_is_parsed op command head c lat sp num unit_ tail rest :
  In (op, command, head) measurement_replies ->
  hd None (wresults c) = None ->
  incoming c =
    Delivers lat (bytes_of_string head ++ sp ++ num ++ " "%char :: unit_ ++ tail) :: rest ->
  (length (bytes_of_string head ++ sp ++ num ++ " "%char :: unit_ ++ tail) <= 128)%nat ->
  sp <> [] -> all_blanks sp -> signed_decimal num ->
  unit_ <> [] -> all_letters unit_ -> stops is_letter tail = true ->
  snd (Strconv.ParseFloat (string_of_bytes num)) = None /\
  op c = Returns (Measurement.Build (fst (Strconv.ParseFloat (string_of_bytes num)))
                                    (string_of_bytes unit_),
                  None,
                  Conn.Build (now c + Z.of_N lat) rest (tl (wresults c))
                             (written c ++ [bytes_of_string (command ++ CRLF)])).
Proof.
  intros Hop Hw Hin Hlen Hsp Bsp Hnum Hu Lu Htail.
  set (reply := bytes_of_string head ++ sp ++ num ++ " "%char :: unit_ ++ tail) in *.
  set (whole := bytes_of_string head ++ sp ++ num ++ " "%char :: unit_).
  assert (Hbuf : copy (make 128) reply = whole ++ tail ++ make (128 - length reply)).
  { rewrite first_buffer by exact Hlen. unfold reply, whole.
    now repeat (rewrite <- app_assoc || rewrite <- app_comm_cons). }
  assert (Hparse : snd (Strconv.ParseFloat (string_of_bytes num)) = None).
  { apply ParseFloat_signed_decimal; auto.
    unfold reply in Hlen. rewrite !length_app in Hlen. lia. }
  split; [exact Hparse|].
  assert (Hre : exists regex,
             Regexp.prog regex = Regexp.Cat (Regexp.Str head) Regexp.value_and_unit /\
             Regexp.numSubexp regex = 2%nat /\
               op c = match DirectCommand c command regex with
                      | (b, Some e, c') => Returns (Measurement.zero, Some e, c')
                      | (b, None, c') =>
                          let result := Regexp.FindStringSubmatch regex (string_of_bytes b) in
                          match index result 1 with
                          | Panics msg => Panics msg
                          | Returns r1 =>
                              let '(weightValue, err) := Strconv.ParseFloat r1 in
                              match err with
                              | Some e => Returns (Measurement.zero, Some e, c')
                              | None =>
                                  match index result 2 with
                                  | Panics msg => Panics msg
                                  | Returns r2 =>
                                      Returns (Measurement.Build weightValue r2, None, c')
                                  end
                              end
                          end
                      end).
  { destruct Hop as [H|[H|[]]]; inversion H; subst.
    - exists weightRegexS. split; [reflexivity|]. split; [reflexivity|].
      unfold Weight.
      destruct (DirectCommand c "S" weightRegexS) as [[b [e|]] c']; reflexivity.
    - exists tareRegex. split; [reflexivity|]. split; [reflexivity|].
      unfold Tare.
      destruct (DirectCommand c "T" tareRegex) as [[b [e|]] c']; reflexivity. }
  destruct Hre as (regex & Hprog & Hn & Hopc).
  destruct (measurement_exact regex head sp num unit_ (tail ++ make (128 - length reply))
              Hprog Hn Hsp Bsp Hnum Hu Lu) as [HM HF].
  { apply stops_zero_padded; auto. }
  fold whole in HM, HF. rewrite <- Hbuf in HM, HF.
  rewrite Hopc.
  rewrite (DirectCommand_first_read c command regex lat reply rest Hw Hin HM).
  unfold Regexp.FindStringSubmatch, bytes_of_string, string_of_bytes.
  rewrite list_ascii_of_string_of_list_ascii.
  fold bytes_of_string string_of_bytes. rewrite HF.
  cbn [map index nth_error].
  destruct (Strconv.ParseFloat (string_of_bytes num)) as [v err].
  cbn [snd] in Hparse. subst err. reflexivity.
Qed.

Lemma measurement_reply_is_parsed_witness :
  let c := fresh [says ms ("T S     -0.02 kg" ++ CRLF)] in
  snd (Strconv.ParseFloat "-0.02") = None /\
  Tare c = Returns (Measurement.Build (fst (Strconv.ParseFloat "-0.02")) "kg",
                    None,
                    Conn.Build (now c + Z.of_N ms) [] (tl (wresults c))
                               (written c ++ [bytes_of_string ("T" ++ CRLF)])).
Proof.
  intros c.
  apply (measurement_reply_is_parsed Tare "T" "T S" c ms
           (bytes_of_string "     ") (bytes_of_string "-0.02") (bytes_of_string "kg")
           (bytes_of_string CRLF) []).
  - simpl. auto.
  - reflexivity.
  - reflexivity.
  - vm_compute. lia.
  - discriminate.
  - repeat constructor.
  - exists ["-"%char], (bytes_of_string "0"), (bytes_of_string "02").
    repeat split; auto; try discriminate; repeat constructor.
  - discriminate.
  - repeat constructor.
  - reflexivity.
Defined.

(** ** GetUnit *)

Lemma GetUnit_unfold c channel :
  GetUnit c channel =
  match DirectCommand c ("M21 " ++ Strconv.Itoa channel) m21Regex with
  | (_, Some e, c') => Returns (""%string, Some e, c')
  | (buf, None, c') =>
      match index (Regexp.FindStringSubmatch m21Regex (string_of_bytes buf)) 1 with
      | Panics msg => Panics msg
      | Returns r1 => Returns (r1, None, c')
      end
  end.
Proof.
  unfold GetUnit. fold m21Regex.
  destruct (DirectCommand c _ m21Regex) as [[buf [e|]] c']; reflexivity.
Qed.

(** What a buffer that matches the pattern of GetUnit gives: the whole match
    and a unit of one or more letters. *)
Lemma m21_submatch buf :
  Regexp.Match m21Regex buf = true ->
  exists whole unit_,
    Regexp.FindSubmatch m21Regex buf = [whole; unit_] /\
    unit_ <> [] /\ all_letters unit_.
Proof.
  intros HM. unfold Regexp.Match in HM. unfold Regexp.FindSubmatch.
  destruct (Regexp.doExecute m21Regex buf) as [c|] eqn:E; [clear HM|discriminate].
  unfold Regexp.doExecute in E. apply search_sound in E.
  destruct E as (pre & w & post & c1 & -> & Hw & ->).
  unfold m21Regex, Regexp.prog, Regexp.Seq in Hw. cbn [fold_right] in Hw.
  inversion Hw as [ | | |? ? w1 r1 ? c2 ? H1 T1| | | | | ]; subst; clear Hw.
  apply Sem_Str_inv in H1. destruct H1 as [-> ->].
  inversion T1 as [ | | |? ? w2 r2 ? c3 ? H2 T2| | | | | ]; subst; clear T1.
  apply Sem_groupless in H2; [|reflexivity]. subst c3.
  inversion T2 as [ | | |? ? w3 r3 ? c4 ? H3 T3| | | | | ]; subst; clear T2.
  apply Sem_groupless in H3; [|reflexivity]. subst c4.
  inversion T3 as [ | | |? ? w4 r4 ? c5 ? H4 T4| | | | | ]; subst; clear T3.
  inversion T4; subst; clear T4.
  inversion H4 as [ | | | | | | | |? ? ? ? c6 Hu]; subst; clear H4.
  pose proof (Sem_groupless _ _ _ _ Hu eq_refl) as ->.
  apply Sem_Plus_Class_inv in Hu. destruct Hu as [Hne Hl].
  eexists _, w4. split; [reflexivity|]. split; auto.
Qed.

(** *** X2: GetUnit after a successful DirectCommand *)

(** X2: when its DirectCommand has succeeded, GetUnit does not panic and
    returns no error: [result[1]] exists, and the unit returned is not empty
    and consists of letters only. *)
Theorem GetUnit_returns_letters c channel buf c' :
  DirectCommand c ("M21 " ++ Strconv.Itoa channel) m21Regex = (buf, None, c') ->
  exists unit_,
    GetUnit c channel = Returns (unit_, None, c') /\
    unit_ <> ""%string /\
    all_letters (bytes_of_string unit_).
Proof.
  intros HD. destruct (DirectCommand_success _ _ _ _ _ HD) as [_ HM].
  destruct (m21_submatch buf HM) as (whole & unit_ & E & Hne & Hl).
  exists (string_of_bytes unit_).
  rewrite GetUnit_unfold, HD.
  unfold Regexp.FindStringSubmatch, bytes_of_string, string_of_bytes.
  rewrite !list_ascii_of_string_of_list_ascii.
  fold bytes_of_string string_of_bytes. rewrite E.
  split; [reflexivity|]. split; auto.
  destruct unit_; [congruence|discriminate].
Qed.

Lemma GetUnit_returns_letters_witness :
  exists unit_,
    GetUnit (fresh [says ms ("M21 A 1 kg" ++ CRLF)]) 1 =
      Returns (unit_, None,
               Conn.Build 1000000 [] [] [bytes_of_string ("M21 1" ++ CRLF)]) /\
    unit_ <> ""%string /\
    all_letters (bytes_of_string unit_).
Proof.
  apply (GetUnit_returns_letters
           (fresh [says ms ("M21 A 1 kg" ++ CRLF)]) 1
           (copy (make 128) (bytes_of_string ("M21 A 1 kg" ++ CRLF)))).
  vm_compute. reflexivity.
Defined.

(** *** X3: GetUnit takes the unit of any channel's reply *)

(** X3: the reply [M21 A d unit], with any digit [d] and a unit of letters
    followed by something that is not a letter, arriving in the first read:
    GetUnit returns exactly that unit, whichever channel was asked for; the
    channel in the reply is not compared with it. *)
Theorem GetUnit_reads_unit_of_any_channel c channel lat d unit_ tail rest :
  hd None (wresults c) = None ->
  incoming c =
    Delivers lat (bytes_of_string "M21 A " ++ d :: " "%char :: unit_ ++ tail) :: rest ->
  (length (bytes_of_string "M21 A " ++ d :: " "%char :: unit_ ++ tail) <= 128)%nat ->
  Strconv.is_digit d = true ->
  unit_ <> [] -> all_letters unit_ -> stops is_letter tail = true ->
  GetUnit c channel =
  Returns (string_of_bytes unit_, None,
           Conn.Build (now c + Z.of_N lat) rest (tl (wresults c))
                      (written c ++ [bytes_of_string ("M21 " ++ Strconv.Itoa channel ++ CRLF)])).
Proof.
  intros Hw Hin Hlen Hd Hu Lu Htail.
  set (reply := bytes_of_string "M21 A " ++ d :: " "%char :: unit_ ++ tail) in *.
  set (whole := bytes_of_string "M21 A " ++ d :: " "%char :: unit_).
  set (pad := make (128 - length reply)).
  assert (Hbuf : copy (make 128) reply = whole ++ tail ++ pad).
  { rewrite first_buffer by exact Hlen. unfold reply, whole, pad.
    now repeat (rewrite <- app_assoc || rewrite <- app_comm_cons). }
  assert (E : Regexp.doExecute m21Regex (whole ++ tail ++ pad) =
              Some (Regexp.set_capture 0 whole
                      (Regexp.set_capture 1 unit_ Regexp.no_captures))).
  { unfold Regexp.doExecute. apply search_here.
    unfold m21Regex, Regexp.prog, Regexp.Seq. cbn [fold_right Regexp.run].
    set (K := fun (s0 : bytes) (c0 : Regexp.captures) =>
                Some (Regexp.set_capture 0 (Regexp.consumed (whole ++ tail ++ pad) s0) c0)).
    assert (Ew : whole ++ tail ++ pad =
                 bytes_of_string "M21 A " ++ d :: " "%char :: unit_ ++ tail ++ pad)
      by (unfold whole; now repeat (rewrite <- app_assoc || rewrite <- app_comm_cons)).
    rewrite Ew, run_Str. unfold Regexp.digit. cbn [Regexp.run].
    rewrite in_class_digit, Hd, Ascii.eqb_refl.
    unfold Regexp.letter. apply run_Plus_Class; auto.
    - apply Forall_forallb. exact Lu.
    - apply stops_zero_padded; auto.
    - unfold K. rewrite consumed_app.
      replace (bytes_of_string "M21 A " ++ d :: " "%char :: unit_ ++ tail ++ pad)
        with (whole ++ tail ++ pad) by exact Ew.
      now rewrite consumed_app. }
  assert (HM : Regexp.Match m21Regex (copy (make 128) reply) = true)
    by (unfold Regexp.Match; now rewrite Hbuf, E).
  rewrite GetUnit_unfold.
  rewrite (DirectCommand_first_read c _ m21Regex lat reply rest Hw Hin HM).
  unfold Regexp.FindStringSubmatch, Regexp.FindSubmatch, bytes_of_string, string_of_bytes.
  rewrite list_ascii_of_string_of_list_ascii.
  fold bytes_of_string string_of_bytes. rewrite Hbuf, E. reflexivity.
Qed.

Lemma GetUnit_reads_unit_of_any_channel_witness :
  let c := fresh [says ms ("M21 A 2 mg" ++ CRLF)] in
  GetUnit c 0 =
  Returns ("mg"%string, None,
           Conn.Build (now c + Z.of_N ms) [] (tl (wresults c))
                      (written c ++ [bytes_of_string ("M21 " ++ Strconv.Itoa 0 ++ CRLF)])).
Proof.
  intros c.
  apply (GetUnit_reads_unit_of_any_channel c 0 ms "2"%char
           (bytes_of_string "mg") (bytes_of_string CRLF) []).
  - reflexivity.
  - reflexivity.
  - vm_compute. lia.
  - reflexivity.
  - discriminate.
  - repeat constructor.
  - reflexivity.
Defined.

(** ** DirectCommand, forwards: from what the line does to what the call returns *)

(** *** X4: the call returns at the first read after which the buffer matches *)

(** X4: the write succeeds; the line delivers the reads [used], after none of
    which the buffer matches, in less than 5 seconds; the next read, however
    long it takes, brings data that make the buffer match.  Then DirectCommand
    returns that buffer and no error, and leaves the reads behind it to the
    next call. *)
Theorem DirectCommand_returns_at_first_match c command regex used lat data rest :
  hd None (wresults c) = None ->
  incoming c = used ++ Delivers lat data :: rest ->
  forallb delivery used = true ->
  (forall p q, used = p ++ q -> p <> [] ->
               Regexp.Match regex (overlay (make 128) p) = false) ->
  elapsed used < timeout ->
  Regexp.Match regex (copy (overlay (make 128) used) data) = true ->
  DirectCommand c command regex =
  (copy (overlay (make 128) used) data, None,
   Conn.Build (now c + elapsed used + Z.of_N lat) rest (tl (wresults c))
              (written c ++ [bytes_of_string (command ++ CRLF)])).
Proof.
  intros Hw Hin Hd Hno Ht HM.
  rewrite DirectCommand_spec, Hw, Hin, await_forward; auto.
  - cbn [await receive latency negb andb].
    replace (Time.Since (now c + elapsed used) (now c) <? timeout) with true
      by (symmetry; apply (Since_lt_iff _ _ _ timeout_is_a_Duration); lia).
    rewrite HM. destruct rest; reflexivity.
  - intros p q E _. pose proof (elapsed_prefix p q). rewrite <- E in *. lia.
Qed.

Lemma DirectCommand_returns_at_first_match_witness :
  let used := [says ms "noise"; says (2000 * ms) "PW"] in
  let data := bytes_of_string ("PWR A" ++ CRLF) in
  let c := fresh (used ++ [Delivers (9000 * ms) data; says ms "left over"]) in
  DirectCommand c "PWR 1" pwrRegex =
  (copy (overlay (make 128) used) data, None,
   Conn.Build (now c + elapsed used + Z.of_N (9000 * ms)) [says ms "left over"]
              (tl (wresults c))
              (written c ++ [bytes_of_string ("PWR 1" ++ CRLF)])).
Proof.
  intros used data c.
  apply (DirectCommand_returns_at_first_match c "PWR 1" pwrRegex used
           (9000 * ms) data [says ms "left over"]).
  - reflexivity.
  - reflexivity.
  - reflexivity.
  - intros p q E Hp.
    destruct p as [|e1 [|e2 [|e3 p]]]; [congruence| | |];
      inversion E; subst; try (vm_compute; reflexivity);
      try (destruct p; discriminate).
  - vm_compute. reflexivity.
  - vm_compute. reflexivity.
Defined.

(** *** X5: a failed read ends the call at once *)

(** X5: as before, but the next read fails.  DirectCommand returns that error
    with no bytes, at the time the read failed, and reads nothing more. *)
Theorem DirectCommand_stops_at_failed_read c command regex used lat e rest :
  hd None (wresults c) = None ->
  incoming c = used ++ Fails lat e :: rest ->
  forallb delivery used = true ->
  (forall p q, used = p ++ q -> p <> [] ->
               Regexp.Match regex (overlay (make 128) p) = false) ->
  elapsed used < timeout ->
  DirectCommand c command regex =
  ([], Some e,
   Conn.Build (now c + elapsed used + Z.of_N lat) rest (tl (wresults c))
              (written c ++ [bytes_of_string (command ++ CRLF)])).
Proof.
  intros Hw Hin Hd Hno Ht.
  rewrite DirectCommand_spec, Hw, Hin, await_forward; auto.
  - cbn [await receive latency negb andb].
    replace (Time.Since (now c + elapsed used) (now c) <? timeout) with true
      by (symmetry; apply (Since_lt_iff _ _ _ timeout_is_a_Duration); lia).
    reflexivity.
  - intros p q E _. pose proof (elapsed_prefix p q). rewrite <- E in *. lia.
Qed.

Lemma DirectCommand_stops_at_failed_read_witness :
  let used := [says ms "noise"] in
  let c := fresh (used ++ [Fails ms (errorString "unplugged"); says ms "PWR A"]) in
  DirectCommand c "PWR 1" pwrRegex =
  ([], Some (errorString "unplugged"),
   Conn.Build (now c + elapsed used + Z.of_N ms) [says ms "PWR A"] (tl (wresults c))
              (written c ++ [bytes_of_string ("PWR 1" ++ CRLF)])).
Proof.
  intros used c.
  apply (DirectCommand_stops_at_failed_read c "PWR 1" pwrRegex used ms
           (errorString "unplugged") [says ms "PWR A"]).
  - reflexivity.
  - reflexivity.
  - reflexivity.
  - intros p q E Hp.
    destruct p as [|e1 [|e2 p]]; [congruence| |];
      inversion E; subst; try (vm_compute; reflexivity);
      try (destruct p; discriminate).
  - vm_compute. reflexivity.
Defined.

(** *** X6: the time-out *)

(** X6: the line delivers the reads [used], at least one, after none of which
    the buffer matches; each of them is started less than 5 seconds after the
    call began, and together they take 5 seconds or more.  Then DirectCommand
    reads no further: it returns the buffer as the last read left it, with the
    time-out error that quotes the command, the pattern and that buffer, and
    the reads still to come stay on the line. *)
Theorem DirectCommand_times_out c command regex used rest :
  hd None (wresults c) = None ->
  incoming c = used ++ rest ->
  forallb delivery used = true ->
  (forall p q, used = p ++ q -> p <> [] ->
               Regexp.Match regex (overlay (make 128) p) = false) ->
  (forall p q, used = p ++ q -> q <> [] -> elapsed p < timeout) ->
  timeout <= elapsed used ->
  DirectCommand c command regex =
  (overlay (make 128) used,
   Some (timed_out command regex (overlay (make 128) used)),
   Conn.Build (now c + elapsed used) rest (tl (wresults c))
              (written c ++ [bytes_of_string (command ++ CRLF)])).
Proof.
  intros Hw Hin Hd Hno Ht Hlate.
  rewrite DirectCommand_spec, Hw, Hin, await_forward; auto.
  - replace (await regex (now c) rest (now c + elapsed used)
                   (overlay (make 128) used) false)
      with (LoopExit (overlay (make 128) used) false rest (now c + elapsed used));
      [reflexivity|].
    assert (C : (Time.Since (now c + elapsed used) (now c) <? timeout) = false).
    { destruct (Time.Since (now c + elapsed used) (now c) <? timeout) eqn:C; auto.
      apply (Since_lt_iff _ _ _ timeout_is_a_Duration) in C. lia. }
    destruct rest; cbn [await]; rewrite C; reflexivity.
  - intros p q E Hq. specialize (Ht p q E Hq). lia.
Qed.

Lemma DirectCommand_times_out_witness :
  let used := [says ms "noise"; says (5000 * ms) "more noise"] in
  let c := fresh (used ++ [says ms "PWR A"]) in
  DirectCommand c "PWR 1" pwrRegex =
  (overlay (make 128) used,
   Some (timed_out "PWR 1" pwrRegex (overlay (make 128) used)),
   Conn.Build (now c + elapsed used) [says ms "PWR A"] (tl (wresults c))
              (written c ++ [bytes_of_string ("PWR 1" ++ CRLF)])).
Proof.
  intros used c.
  apply (DirectCommand_times_out c "PWR 1" pwrRegex used [says ms "PWR A"]).
  - reflexivity.
  - reflexivity.
  - reflexivity.
  - intros p q E Hp.
    destruct p as [|e1 [|e2 [|e3 p]]]; [congruence| | |];
      inversion E; subst; try (vm_compute; reflexivity);
      try (destruct p; discriminate).
  - intros p q E Hq.
    destruct p as [|e1 [|e2 [|e3 p]]]; inversion E; subst;
      try (vm_compute; reflexivity); try congruence;
      try (destruct p; discriminate).
  - vm_compute. discriminate.
Defined.

(** *** X7: bytes together with an error mean the deadline has passed *)

(** When the loop is left by its condition, the condition is false. *)
Lemma await_exit_condition regex start : forall evs t buf m buf' m' evs' t',
  await regex start evs t buf m = LoopExit buf' m' evs' t' ->
  negb m' && (Time.Since t' start <? timeout) = false.
Proof.
  induction evs as [|ev evs IH]; intros t buf m buf' m' evs' t' H; cbn [await] in H.
  - destruct (negb m && (Time.Since t start <? timeout)) eqn:C; [discriminate|].
    inversion H; subst. exact C.
  - destruct (negb m && (Time.Since t start <? timeout)) eqn:C.
    + destruct ev as [lat data|lat e]; cbn [receive latency] in H; [|discriminate].
      eapply IH; eauto.
    + inversion H; subst. exact C.
Qed.

(** X7: DirectCommand returns bytes together with an error in one case only:
    the error is the time-out error quoting the command, the pattern and
    these bytes, the bytes are the 128 of the buffer and do not match, and at
    least 5 seconds have passed since the call began. *)
Theorem DirectCommand_bytes_with_error c command regex buf e c' :
  DirectCommand c command regex = (buf, Some e, c') ->
  buf <> [] ->
  e = timed_out command regex buf /\
  length buf = 128%nat /\
  Regexp.Match regex buf = false /\
  timeout <= now c' - now c.
Proof.
  rewrite DirectCommand_spec. destruct (hd None (wresults c)).
  { intros H. inversion H; subst. congruence. }
  destruct (await regex (now c) (incoming c) (now c) (make 128) false)
    as [buf1 m evs t|e1 evs t] eqn:E.
  2:{ intros H. inversion H; subst. congruence. }
  intros H _. destruct m; [discriminate|]. inversion H; subst; clear H.
  pose proof (await_exit_condition _ _ _ _ _ _ _ _ _ _ E) as C.
  apply await_exit in E.
  destruct E as (used & _ & _ & Hbuf & _ & Hm & Hc & _).
  rewrite Since_start in Hc. cbn [negb andb] in Hc.
  destruct used as [|ev used]; [discriminate|].
  cbn [now negb andb] in *.
  repeat split; auto.
  - rewrite Hbuf, overlay_length. apply make_length.
  - destruct (Time.Since t (now c) <? timeout) eqn:S; [discriminate|].
    destruct (Z.lt_ge_cases (t - now c) timeout) as [L|L]; [|exact L].
    apply (Since_lt_iff _ _ _ timeout_is_a_Duration) in L. congruence.
Qed.

Lemma DirectCommand_bytes_with_error_witness :
  let c := fresh [says (6000 * ms) "noise"] in
  let buf := copy (make 128) (bytes_of_string "noise") in
  timed_out "Z" (Regexp.MustCompile "Z A" (Regexp.Str "Z A") 0) buf =
    timed_out "Z" (Regexp.MustCompile "Z A" (Regexp.Str "Z A") 0) buf /\
  length buf = 128%nat /\
  Regexp.Match (Regexp.MustCompile "Z A" (Regexp.Str "Z A") 0) buf = false /\
  timeout <= 6000000000 - now c.
Proof.
  intros c buf.
  apply (DirectCommand_bytes_with_error c "Z"
           (Regexp.MustCompile "Z A" (Regexp.Str "Z A") 0) buf
           (timed_out "Z" (Regexp.MustCompile "Z A" (Regexp.Str "Z A") 0) buf)
           (Conn.Build 6000000000 [] [] [bytes_of_string ("Z" ++ CRLF)])).
  - vm_compute. reflexivity.
  - vm_compute. discriminate.
Defined.

(** The clock does not go back. *)
Lemma DirectCommand_clock c command regex :
  now c <= now (snd (DirectCommand c command regex)).
Proof.
  rewrite DirectCommand_spec. destruct (hd None (wresults c)); [simpl; lia|].
  destruct (await regex (now c) (incoming c) (now c) (make 128) false)
    as [buf1 m evs t|e1 evs t] eqn:E; cbn [snd now].
  - apply await_exit in E. destruct E as (used & _ & _ & _ & -> & _).
    pose proof (elapsed_nonneg used). lia.
  - apply await_failed in E.
    destruct E as (used & _ & [(_ & _ & _ & ->)|(lat & _ & ->)]);
      pose proof (elapsed_nonneg used); lia.
Qed.

(** ** GetDoorStatus *)

(** *** X8: GetDoorStatus never returns a status *)

(** X8: GetDoorStatus writes [WS ([0-9])] and waits for [WS].  If that
    DirectCommand fails, it returns the empty string and the error; if it
    succeeds, the call panics, since the pattern has no group to index.  No
    call returns a status. *)
Theorem GetDoorStatus_outcome c :
  written (snd (DirectCommand c "WS ([0-9])" doorStatusRegex)) =
    written c ++ [bytes_of_string ("WS ([0-9])" ++ CRLF)] /\
  match DirectCommand c "WS ([0-9])" doorStatusRegex with
  | (_, Some e, c') => GetDoorStatus c = Returns (""%string, Some e, c')
  | (_, None, _) => GetDoorStatus c = Panics "index out of range"
  end /\
  (forall status c', GetDoorStatus c <> Returns (status, None, c')).
Proof.
  split; [apply DirectCommand_written|].
  unfold GetDoorStatus. fold doorStatusRegex.
  destruct (DirectCommand c "WS ([0-9])" doorStatusRegex) as [[buf [e|]] c1].
  - split; [reflexivity|]. intros status c' H. discriminate.
  - unfold Regexp.FindStringSubmatch, Regexp.FindSubmatch.
    destruct (Regexp.doExecute doorStatusRegex _);
      cbn [Regexp.numSubexp doorStatusRegex seq map index nth_error];
      split; try reflexivity; intros status c' H; discriminate.
Qed.

(** ** WeightOnKey *)

Lemma Conn_eta c : Conn.Build (now c) (incoming c) (wresults c) (written c) = c.
Proof. destruct c; reflexivity. Qed.

(** The call in terms of its three parts: the start command, the loop, the
    stop command. *)
Lemma WeightOnKey_unfold intOfInf c n T :
  (T =? 0) && (n =? 0) = false ->
  WeightOnKey intOfInf c n T =
  match DirectCommand c "ST 1" initRegex with
  | (_, Some e, c1) => Returns ([], Some e, c1)
  | (_, None, c1) =>
      match acquire (effective_count intOfInf n) (effective_timeout T) (now c1)
                    (incoming c1) (now c1) (make 128) 0 [] with
      | LoopPanicked msg => Panics msg
      | LoopReturned e evs t => Returns ([], Some e, Conn.Build t evs (wresults c1) (written c1))
      | LoopDone weightList evs t =>
          Returns (weightList, None,
                   snd (DirectCommand (Conn.Build t evs (wresults c1) (written c1))
                                      "ST 0" stopRegex))
      end
  end.
Proof.
  intros H. unfold WeightOnKey, effective_count, effective_timeout. rewrite H.
  change (2 ^ 63 - 1) with Time.maxDuration.
  destruct (DirectCommand c "ST 1" initRegex) as [[ack [e|]] c1]; [reflexivity|].
  destruct (acquire _ _ _ _ _ _ _ _); try reflexivity.
  destruct (DirectCommand _ "ST 0" stopRegex) as [[b e] c']. reflexivity.
Qed.

(** *** X9: a count that is not positive collects nothing *)

(** X9: the count the loop runs with is [numMeasurements], or
    [int(math.Inf(1))] when [numMeasurements] is 0.  When that count is zero
    or negative (a negative [numMeasurements]; or 0 with a timeout, where the
    conversion of infinity gives a number that is not positive), and the
    start command is acknowledged, the loop does not read at all: WeightOnKey
    sends the stop command at once and returns no measurement and no
    error. *)
Theorem WeightOnKey_without_count intOfInf c n T ack c1 :
  (T =? 0) && (n =? 0) = false ->
  effective_count intOfInf n <= 0 ->
  DirectCommand c "ST 1" initRegex = (ack, None, c1) ->
  WeightOnKey intOfInf c n T =
  Returns ([], None, snd (DirectCommand c1 "ST 0" stopRegex)).
Proof.
  intros H Hn HD. rewrite WeightOnKey_unfold, HD by exact H.
  rewrite acquire_done by lia. now rewrite Conn_eta.
Qed.

Lemma WeightOnKey_without_count_witness :
  let c := fresh [says ms ("ST A" ++ CRLF); says ms ("ST     1.50 g" ++ CRLF)] in
  let c1 := Conn.Build 1000000 [says ms ("ST     1.50 g" ++ CRLF)] [] [startLine] in
  WeightOnKey (- 2 ^ 63) c 0 (5 * Time.Second) =
  Returns ([], None, snd (DirectCommand c1 "ST 0" stopRegex)).
Proof.
  intros c c1.
  apply (WeightOnKey_without_count (- 2 ^ 63) c 0 (5 * Time.Second)
           (copy (make 128) (bytes_of_string ("ST A" ++ CRLF))) c1).
  - reflexivity.
  - vm_compute. discriminate.
  - vm_compute. reflexivity.
Defined.

(** *** X10: what WeightOnKey writes *)

(** X10: a call that returns without error has written the start command and
    then the stop command, and nothing else, whether or not the stop command
    was acknowledged; a call that returns an error has written nothing or
    the start command only. *)
Theorem WeightOnKey_writes intOfInf c n T l err c' :
  WeightOnKey intOfInf c n T = Returns (l, err, c') ->
  match err with
  | None => written c' = written c ++ [startLine; stopLine]
  | Some _ => written c' = written c \/ written c' = written c ++ [startLine]
  end.
Proof.
  destruct ((T =? 0) && (n =? 0)) eqn:H.
  { unfold WeightOnKey. rewrite H. intros E. inversion E; subst. now left. }
  rewrite WeightOnKey_unfold by exact H.
  pose proof (DirectCommand_written c "ST 1" initRegex) as W.
  destruct (DirectCommand c "ST 1" initRegex) as [[ack [e|]] c1]; cbn [snd] in W.
  - intros E. inversion E; subst. right. exact W.
  - destruct (acquire _ _ _ _ _ _ _ _) as [wl evs t|e2 evs t|msg]; [| |discriminate].
    + intros E. inversion E; subst.
      rewrite DirectCommand_written. cbn [written]. rewrite W, <- app_assoc. reflexivity.
    + intros E. inversion E; subst. right. exact W.
Qed.

Lemma WeightOnKey_writes_witness :
  written (Conn.Build 2000000 [] [] [startLine; stopLine]) =
  written (fresh [says ms ("ST A" ++ CRLF); says ms "no answer to the stop"])
    ++ [startLine; stopLine].
Proof.
  apply (WeightOnKey_writes 0
           (fresh [says ms ("ST A" ++ CRLF); says ms "no answer to the stop"])
           (-1) 0 [] None).
  vm_compute. reflexivity.
Defined.

(** What a buffer that matches a measurement pattern gives as its unit. *)
Lemma Sem_value_and_unit_unit w c c' :
  Regexp.Sem Regexp.value_and_unit w c c' ->
  exists num unit_,
    c' = Regexp.set_capture 2 unit_ (Regexp.set_capture 1 num c) /\
    unit_ <> [] /\ all_letters unit_.
Proof.
  intros H.
  unfold Regexp.value_and_unit, Regexp.Seq in H. cbn [fold_right] in H.
  inversion H as [ | | |? ? sp w1 ? c1 ? Hsp Q1| | | | | ]; subst; clear H.
  inversion Q1 as [ | | |? ? num w2 ? c2 ? Hnum Q2| | | | | ]; subst; clear Q1.
  inversion Q2 as [ | | |? ? blank w3 ? c3 ? Hblank Q3| | | | | ]; subst; clear Q2.
  inversion Q3 as [ | | |? ? unit_ w4 ? c4 ? Hunit Q4| | | | | ]; subst; clear Q3.
  inversion Q4; subst; clear Q4.
  inversion Hblank; subst; clear Hblank.
  inversion Hnum as [ | | | | | | | |? ? ? ? c5 Hn]; subst; clear Hnum.
  inversion Hunit as [ | | | | | | | |? ? ? ? c6 Hu]; subst; clear Hunit.
  pose proof (Sem_groupless _ _ _ _ Hn eq_refl) as ->.
  pose proof (Sem_groupless _ _ _ _ Hu eq_refl) as ->.
  pose proof (Sem_groupless _ _ _ _ Hsp eq_refl) as ->.
  apply Sem_Plus_Class_inv in Hu. destruct Hu as [Hne Hl].
  exists num, unit_. repeat split; auto.
Qed.

Lemma measurement_submatch_unit re b :
  measurement_pattern re -> Regexp.Match re b = true ->
  exists whole num unit_,
    Regexp.FindSubmatch re b = [whole; num; unit_] /\
    unit_ <> [] /\ all_letters unit_.
Proof.
  intros (head & Hprog & Hn) HM.
  unfold Regexp.Match in HM. unfold Regexp.FindSubmatch. rewrite Hn.
  destruct (Regexp.doExecute re b) as [c|] eqn:E; [clear HM|discriminate].
  unfold Regexp.doExecute in E. rewrite Hprog in E.
  apply search_sound in E. destruct E as (pre & w & post & c1 & -> & Hw & ->).
  inversion Hw as [ | | |? ? w1 w2 ? c2 ? Hhead Htail| | | | | ]; subst; clear Hw.
  apply Sem_Str_inv in Hhead. destruct Hhead as [-> ->].
  apply Sem_value_and_unit_unit in Htail.
  destruct Htail as (num & unit_ & -> & Hne & Hl).
  eexists _, num, unit_. split; [reflexivity|]. split; auto.
Qed.

(** What the loop has done when it is left by its condition: it has added
    well-formed measurements, no more than were missing; the condition is
    false; the clock has not gone back. *)
Lemma acquire_result n T start : forall evs t buf i wl wl' evs' t',
  acquire n T start evs t buf i wl = LoopDone wl' evs' t' ->
  exists more,
    wl' = wl ++ more /\
    Forall well_formed more /\
    Z.of_nat (length more) <= Z.max 0 (n - i) /\
    (i + Z.of_nat (length more) <? n) && (Time.Since t' start <? T) = false /\
    t <= t'.
Proof.
  induction evs as [|ev evs IH]; intros t buf i wl wl' evs' t' H; cbn [acquire] in H.
  - destruct ((i <? n) && (Time.Since t start <? T)) eqn:C; [discriminate|].
    inversion H; subst. exists []. rewrite app_nil_r, Z.add_0_r.
    repeat split; auto; simpl; lia.
  - destruct ((i <? n) && (Time.Since t start <? T)) eqn:C.
    2:{ inversion H; subst. exists []. rewrite app_nil_r, Z.add_0_r.
        repeat split; auto; simpl; lia. }
    apply andb_prop in C. destruct C as [Ci _]. apply Z.ltb_lt in Ci.
    pose proof (latency_nonneg ev) as Hlat.
    destruct ev as [lat data|lat e]; cbn [receive latency] in H, Hlat; [|discriminate].
    destruct (Regexp.Match weightRegex (copy buf data)) eqn:HM.
    + destruct (measurement_submatch_unit weightRegex (copy buf data)
                  weightRegex_pattern HM) as (whole & num & unit_ & E & Hne & Hl).
      unfold Regexp.FindStringSubmatch in H.
      rewrite bytes_of_string_of_bytes, E in H. cbn [map index nth_error] in H.
      destruct (Strconv.ParseFloat (string_of_bytes num)) as [v [e|]]; [discriminate|].
      apply IH in H. destruct H as (more & -> & Hwf & Hlen & Hc & Ht).
      exists (Measurement.Build v (string_of_bytes unit_) :: more).
      rewrite <- app_assoc. cbn [length app]. rewrite Nat2Z.inj_succ.
      replace (i + Z.succ (Z.of_nat (length more))) with (i + 1 + Z.of_nat (length more))
        by lia.
      repeat split; auto; try lia.
      constructor; auto. split; cbn [Measurement.Unit].
      * now apply string_of_bytes_nonempty.
      * now rewrite bytes_of_string_of_bytes.
    + apply IH in H. destruct H as (more & -> & Hwf & Hlen & Hc & Ht).
      exists more. repeat split; auto; lia.
Qed.

(** *** X11: what WeightOnKey returns is bounded and well-formed *)

(** X11: whatever WeightOnKey returns, the list has no more measurements than
    the count the loop runs with (none when that count is not positive), and
    every measurement in it has a unit that is not empty and consists of
    letters. *)
Theorem WeightOnKey_result_bounded intOfInf c n T l err c' :
  WeightOnKey intOfInf c n T = Returns (l, err, c') ->
  Z.of_nat (length l) <= Z.max 0 (effective_count intOfInf n) /\
  Forall well_formed l.
Proof.
  destruct ((T =? 0) && (n =? 0)) eqn:H.
  { unfold WeightOnKey. rewrite H. intros E. inversion E; subst. simpl. split; [lia|auto]. }
  rewrite WeightOnKey_unfold by exact H.
  destruct (DirectCommand c "ST 1" initRegex) as [[ack [e|]] c1].
  - intros E. inversion E; subst. simpl. split; [lia|auto].
  - destruct (acquire _ _ _ _ _ _ _ _) as [wl evs t|e2 evs t|msg] eqn:A; [| |discriminate].
    + intros E. inversion E; subst.
      apply acquire_result in A. destruct A as (more & -> & Hwf & Hlen & _).
      rewrite Z.sub_0_r in Hlen. simpl. auto.
    + intros E. inversion E; subst. simpl. split; [lia|auto].
Qed.

Lemma slow_session_run :
  WeightOnKey 0 slow_session 3 (5 * Time.Second) =
  Returns (slow_session_result, None, slow_session_end).
Proof. vm_compute. reflexivity. Qed.

Lemma WeightOnKey_result_bounded_witness :
  Z.of_nat (length slow_session_result) <= Z.max 0 (effective_count 0 3) /\
  Forall well_formed slow_session_result.
Proof.
  apply (WeightOnKey_result_bounded 0 slow_session 3 (5 * Time.Second)
           slow_session_result None slow_session_end).
  vm_compute. reflexivity.
Defined.

(** *** X12: fewer measurements than asked for only after the deadline *)

Lemma Since_not_lt now_ start d :
  d <= Time.maxDuration -> start <= now_ ->
  (Time.Since now_ start <? d) = false -> d <= now_ - start.
Proof.
  unfold Time.Since, Time.maxDuration, Time.minDuration. intros Hd Hs H.
  apply Z.ltb_ge in H. lia.
Qed.

(** X12: the deadline the loop runs with is [timeout], or the largest
    duration when [timeout] is 0.  A call that returns without error and with
    fewer measurements than the count the loop runs with returns only when
    that deadline has passed: running out of time is not an error. *)
Theorem WeightOnKey_partial_result_after_deadline intOfInf c n T l c' :
  T <= Time.maxDuration ->
  WeightOnKey intOfInf c n T = Returns (l, None, c') ->
  Z.of_nat (length l) < effective_count intOfInf n ->
  effective_timeout T <= now c' - now c.
Proof.
  intros HT. destruct ((T =? 0) && (n =? 0)) eqn:H.
  { unfold WeightOnKey. rewrite H. discriminate. }
  rewrite WeightOnKey_unfold by exact H.
  pose proof (DirectCommand_clock c "ST 1" initRegex) as K1.
  destruct (DirectCommand c "ST 1" initRegex) as [[ack [e|]] c1]; [discriminate|].
  cbn [snd] in K1.
  destruct (acquire _ _ _ _ _ _ _ _) as [wl evs t|e2 evs t|msg] eqn:A; try discriminate.
  intros E Hl. inversion E; subst; clear E.
  pose proof (DirectCommand_clock (Conn.Build t evs (wresults c1) (written c1))
                "ST 0" stopRegex) as K2.
  cbn [now] in K2.
  apply acquire_result in A. destruct A as (more & Em & _ & _ & Hc & Ht).
  simpl in Em. subst more. rewrite Z.add_0_l in Hc.
  replace (Z.of_nat (length l) <? effective_count intOfInf n) with true in Hc
    by (symmetry; apply Z.ltb_lt; lia).
  cbn [andb] in Hc.
  apply Since_not_lt in Hc; [lia| |exact Ht].
  unfold effective_timeout. destruct (T =? 0); [lia|exact HT].
Qed.

Lemma WeightOnKey_partial_result_after_deadline_witness :
  effective_timeout (5 * Time.Second) <= now slow_session_end - now slow_session.
Proof.
  apply (WeightOnKey_partial_result_after_deadline 0 slow_session 3 (5 * Time.Second)
           slow_session_result slow_session_end).
  - vm_compute. discriminate.
  - exact slow_session_run.
  - vm_compute. reflexivity.
Defined.

(** *** X13: the measurements of Weight and Tare are well-formed *)

(** X13: a measurement that Weight or Tare returns without error has a unit
    that is not empty and consists of letters. *)
Theorem Weight_Tare_unit_is_letters op command regex c m c' :
  In (op, command, regex) measurement_ops ->
  op c = Returns (m, None, c') ->
  well_formed m.
Proof.
  intros Hop H.
  assert (Hre := measurement_ops_pattern _ _ _ Hop).
  assert (Hopc :
    op c = match DirectCommand c command regex with
           | (b, Some e, c1) => Returns (Measurement.zero, Some e, c1)
           | (b, None, c1) =>
               let result := Regexp.FindStringSubmatch regex (string_of_bytes b) in
               match index result 1 with
               | Panics msg => Panics msg
               | Returns r1 =>
                   let '(weightValue, err) := Strconv.ParseFloat r1 in
                   match err with
                   | Some e => Returns (Measurement.zero, Some e, c1)
                   | None =>
                       match index result 2 with
                       | Panics msg => Panics msg
                       | Returns r2 => Returns (Measurement.Build weightValue r2, None, c1)
                       end
                   end
               end
           end).
  { destruct Hop as [E|[E|[]]]; inversion E; subst.
    - unfold Weight. destruct (DirectCommand c "S" weightRegexS) as [[b [e|]] c1]; reflexivity.
    - unfold Tare. destruct (DirectCommand c "T" tareRegex) as [[b [e|]] c1]; reflexivity. }
  rewrite Hopc in H. clear Hopc.
  destruct (DirectCommand c command regex) as [[b [e|]] c1] eqn:HD; [discriminate|].
  destruct (DirectCommand_success _ _ _ _ _ HD) as [_ HM].
  destruct (measurement_submatch_unit regex b Hre HM) as (whole & num & unit_ & E & Hne & Hl).
  unfold Regexp.FindStringSubmatch in H.
  rewrite bytes_of_string_of_bytes, E in H. cbn [map index nth_error] in H.
  destruct (Strconv.ParseFloat (string_of_bytes num)) as [v [e|]]; [discriminate|].
  inversion H; subst. split; cbn [Measurement.Unit].
  - now apply string_of_bytes_nonempty.
  - now rewrite bytes_of_string_of_bytes.
Qed.

Lemma Weight_Tare_unit_is_letters_witness :
  well_formed (Measurement.Build (float_lit 1234 (-2)) "g").
Proof.
  apply (Weight_Tare_unit_is_letters Weight "S" weightRegexS
           (fresh [says ms ("S S    12.34 g" ++ CRLF)])
           (Measurement.Build (float_lit 1234 (-2)) "g")
           (Conn.Build 1000000 [] [] [bytes_of_string ("S" ++ CRLF)])).
  - simpl. auto.
  - vm_compute. reflexivity.
Defined.

(** *** X14: the frames of a session come back as measurements, in order *)

(** A frame read into the buffer, whatever the buffer held: the buffer
    matches, and its submatches are those of the frame. *)
Lemma frame_into_buffer f buf :
  frame_ok f -> length buf = 128%nat ->
  Regexp.Match weightRegex (copy buf (frame_bytes f)) = true /\
  exists whole,
    Regexp.FindStringSubmatch weightRegex (string_of_bytes (copy buf (frame_bytes f))) =
    [whole; string_of_bytes (frame_number f); string_of_bytes (frame_unit f)] /\
  snd (Strconv.ParseFloat (string_of_bytes (frame_number f))) = None.
Proof.
  intros (Hsp & Bsp & Hnum & Hu & Lu & Ht & Hstop & Hlen) Hbuf.
  set (whole := bytes_of_string "ST" ++ frame_blanks f ++ frame_number f
                  ++ " "%char :: frame_unit f).
  set (stale := skipn (length (frame_bytes f)) buf).
  assert (E : copy buf (frame_bytes f) = whole ++ frame_tail f ++ stale).
  { rewrite copy_fits by lia. unfold frame_bytes, whole, stale.
    now repeat (rewrite <- app_assoc || rewrite <- app_comm_cons). }
  destruct (measurement_exact weightRegex "ST" (frame_blanks f) (frame_number f)
              (frame_unit f) (frame_tail f ++ stale) eq_refl eq_refl
              Hsp Bsp Hnum Hu Lu) as [HM HF].
  { destruct (frame_tail f); [congruence|exact Hstop]. }
  fold whole in HM, HF. rewrite <- E in HM, HF.
  split; [exact HM|]. exists (string_of_bytes whole). split.
  - unfold Regexp.FindStringSubmatch. now rewrite bytes_of_string_of_bytes, HF.
  - apply ParseFloat_signed_decimal; auto.
    unfold frame_bytes in Hlen. rewrite !length_app in Hlen. lia.
Qed.

Lemma acquire_frames n start later : forall k fs t buf i wl,
  length buf = 128%nat ->
  Forall frame_ok fs ->
  (k <= length fs)%nat ->
  i = n - Z.of_nat k ->
  start <= t ->
  t - start + elapsed (map frame_read fs) < Time.maxDuration ->
  acquire n Time.maxDuration start (map frame_read fs ++ later) t buf i wl =
  LoopDone (wl ++ map frame_measurement (firstn k fs))
           (map frame_read (skipn k fs) ++ later)
           (t + elapsed (map frame_read (firstn k fs))).
Proof.
  induction k as [|k IH]; intros fs t buf i wl Hbuf Hok Hk Hi Hst Ht.
  - rewrite acquire_done by lia. simpl. now rewrite app_nil_r, Z.add_0_r.
  - destruct fs as [|f fs]; [simpl in Hk; lia|].
    inversion Hok as [|? ? Hf Hfs]; subst.
    cbn [map elapsed fold_right] in Ht. fold (elapsed (map frame_read fs)) in Ht.
    pose proof (elapsed_nonneg (map frame_read fs)) as He.
    pose proof (latency_nonneg (frame_read f)) as Hl.
    simpl map. simpl app. unfold frame_read at 1. cbn [acquire receive latency].
    replace (n - Z.of_nat (S k) <? n) with true by (symmetry; apply Z.ltb_lt; lia).
    replace (Time.Since t start <? Time.maxDuration) with true.
    2:{ symmetry. apply Since_lt_iff; [unfold Time.minDuration, Time.maxDuration; lia|lia]. }
    cbn [andb].
    destruct (frame_into_buffer f buf Hf Hbuf) as (HM & whole & HF & HP).
    rewrite HM, HF. cbn [index nth_error].
    destruct (Strconv.ParseFloat (string_of_bytes (frame_number f))) as [v err] eqn:EP.
    cbn [snd] in HP. subst err.
    rewrite (IH fs); auto.
    + cbn [firstn skipn map elapsed fold_right]. rewrite <- app_assoc.
      fold (elapsed (map frame_read (firstn k fs))).
      unfold frame_measurement at 2. rewrite EP. cbn [fst app latency frame_read].
      f_equal. lia.
    + now rewrite copy_length.
    + simpl in Hk. lia.
    + lia.
    + cbn [latency frame_read] in *. lia.
    + cbn [latency frame_read] in *. lia.
Qed.

(** X14: the start command is acknowledged; then the line delivers the
    well-formed frames [fs], each in one read, at least [n] of them, within
    the 292 years that stand for no deadline.  With the count [n] and no
    timeout, WeightOnKey returns the measurements of the first [n] frames, in
    the order of arrival, each with the weight its decimal converts to and
    its unit, whatever an earlier and longer frame left in the buffer; and
    the frames behind them stay on the line for the stop command. *)
Theorem WeightOnKey_streams_in_order intOfInf c n ack c1 fs later :
  (0 < n)%nat -> (n <= length fs)%nat ->
  DirectCommand c "ST 1" initRegex = (ack, None, c1) ->
  incoming c1 = map frame_read fs ++ later ->
  Forall frame_ok fs ->
  elapsed (map frame_read fs) < Time.maxDuration ->
  WeightOnKey intOfInf c (Z.of_nat n) 0 =
  Returns (map frame_measurement (firstn n fs), None,
           snd (DirectCommand
                  (Conn.Build (now c1 + elapsed (map frame_read (firstn n fs)))
                              (map frame_read (skipn n fs) ++ later)
                              (wresults c1) (written c1))
                  "ST 0" stopRegex)).
Proof.
  intros Hn Hlen HD Hin Hok Ht.
  rewrite WeightOnKey_unfold, HD, Hin.
  2:{ replace (Z.of_nat n =? 0) with false by (symmetry; apply Z.eqb_neq; lia).
      apply andb_false_r. }
  unfold effective_count, effective_timeout.
  replace (Z.of_nat n =? 0) with false by (symmetry; apply Z.eqb_neq; lia).
  change (0 =? 0) with true. cbv iota.
  rewrite (acquire_frames (Z.of_nat n) (now c1) later n fs);
    auto using make_length; lia.
Qed.

Lemma WeightOnKey_streams_in_order_witness :
  let line_end := bytes_of_string CRLF in
  let f1 := Build_Frame ms (bytes_of_string "     ") (bytes_of_string "-12.340")
                        (bytes_of_string "kg") line_end in
  let f2 := Build_Frame ms (bytes_of_string " ") (bytes_of_string "0.5")
                        (bytes_of_string "g") line_end in
  let f3 := Build_Frame ms (bytes_of_string "  ") (bytes_of_string "7.25")
                        (bytes_of_string "g") line_end in
  let fs := [f1; f2; f3] in
  let c := fresh (says ms ("ST A" ++ CRLF) :: map frame_read fs) in
  let c1 := Conn.Build 1000000 (map frame_read fs) [] [startLine] in
  WeightOnKey 0 c (Z.of_nat 2) 0 =
  Returns (map frame_measurement (firstn 2 fs), None,
           snd (DirectCommand
                  (Conn.Build (now c1 + elapsed (map frame_read (firstn 2 fs)))
                              (map frame_read (skipn 2 fs) ++ [])
                              (wresults c1) (written c1))
                  "ST 0" stopRegex)).
Proof.
  intros line_end f1 f2 f3 fs c c1.
  apply (WeightOnKey_streams_in_order 0 c 2
           (copy (make 128) (bytes_of_string ("ST A" ++ CRLF))) c1 fs []).
  - lia.
  - simpl. lia.
  - vm_compute. reflexivity.
  - now rewrite app_nil_r.
  - repeat constructor; try discriminate; simpl; try lia.
    + exists ["-"%char], (bytes_of_string "12"), (bytes_of_string "340").
      repeat split; auto; try discriminate; repeat constructor.
    + exists [], (bytes_of_string "0"), (bytes_of_string "5").
      repeat split; auto; try discriminate; repeat constructor.
    + exists [], (bytes_of_string "7"), (bytes_of_string "25").
      repeat split; auto; try discriminate; repeat constructor.
  - vm_compute. reflexivity.
Defined.

(** ** The operations that wait for an acknowledgement *)

(** A first buffer matches a literal pattern [verb A] exactly when the reply
    carries it. *)
Lemma literal_first_match regex lit verb reply :
  Regexp.prog regex = Regexp.Str lit ->
  bytes_of_string lit = bytes_of_string (verb ++ " ") ++ ["A"%char] ->
  ~ In NUL (bytes_of_string lit) ->
  (length reply <= 128)%nat ->
  Regexp.Match regex (copy (make 128) reply) = true <-> carries verb "A" reply.
Proof.
  intros Hprog Hlit Hnul Hlen.
  rewrite first_buffer by exact Hlen. rewrite Regexp_Match_iff, Hprog. split.
  - intros (pre & w & post & E & (c0 & c1 & Hw)).
    apply Sem_Str_inv in Hw. destruct Hw as [-> _].
    symmetry in E. apply within_reply in E; auto.
    + destruct E as (post' & ->). exists pre, post'.
      now rewrite Hlit, <- app_assoc.
    + rewrite Hlit. destruct (bytes_of_string (verb ++ " ")); discriminate.
  - intros (pre & post & ->).
    exists pre, (bytes_of_string lit), (post ++ make (128 - length
      (pre ++ bytes_of_string (verb ++ " ") ++ "A"%char :: post))).
    split.
    + rewrite Hlit. now repeat (rewrite <- app_assoc || rewrite <- app_comm_cons).
    + exists Regexp.no_captures, Regexp.no_captures. apply Sem_Str.
Qed.

(** *** X15: SetResultID, SetTaskID, SetMessage, ShowWeight, SetUnit, Zero *)

(** X15: when the write succeeds and the first read brings a reply of at
    most 128 bytes, each of these operations has written its command line,
    once, and it returns without error having used that one read exactly
    when the reply carries the acknowledgement [verb A]; no other reply ends
    it well at that point. *)
Theorem ack_ops_accept_their_acknowledgement op command verb c lat reply rest :
  ack_op op command verb ->
  hd None (wresults c) = None ->
  incoming c = Delivers lat reply :: rest ->
  (length reply <= 128)%nat ->
  written (snd (op c)) = written c ++ [bytes_of_string (command ++ CRLF)] /\
  (carries verb "A" reply <->
   op c = (None, Conn.Build (now c + Z.of_N lat) rest (tl (wresults c))
                            (written c ++ [bytes_of_string (command ++ CRLF)]))).
Proof.
  intros Hop Hw Hin Hlen.
  assert (Hre : exists regex lit,
             Regexp.prog regex = Regexp.Str lit /\
             bytes_of_string lit = bytes_of_string (verb ++ " ") ++ ["A"%char] /\
             ~ In NUL (bytes_of_string lit) /\
             op c = (snd (fst (DirectCommand c command regex)),
                     snd (DirectCommand c command regex))).
  { destruct Hop;
      [exists (Regexp.MustCompile "A36 A" (Regexp.Str "A36 A") 0), "A36 A"%string; unfold SetResultID
      |exists (Regexp.MustCompile "A37 A" (Regexp.Str "A37 A") 0), "A37 A"%string; unfold SetTaskID
      |exists (Regexp.MustCompile "D A" (Regexp.Str "D A") 0), "D A"%string; unfold SetMessage
      |exists (Regexp.MustCompile "DW A" (Regexp.Str "DW A") 0), "DW A"%string; unfold ShowWeight
      |exists (Regexp.MustCompile "M21 A" (Regexp.Str "M21 A") 0), "M21 A"%string; unfold SetUnit
      |exists (Regexp.MustCompile "Z A" (Regexp.Str "Z A") 0), "Z A"%string; unfold Zero];
      (split; [reflexivity|]; split; [reflexivity|];
       split; [simpl; intuition discriminate|]);
      match goal with
      | |- context [DirectCommand ?c0 ?cmd ?re] =>
          destruct (DirectCommand c0 cmd re) as [[b e] c1]; reflexivity
      end. }
  destruct Hre as (regex & lit & Hprog & Hlit & Hnul & Hopc).
  pose proof (literal_first_match regex lit verb reply Hprog Hlit Hnul Hlen) as M.
  rewrite Hopc. split; [apply DirectCommand_written|].
  rewrite <- M. split.
  - intros HM.
    now rewrite (DirectCommand_first_read c command regex lat reply rest Hw Hin HM).
  - intros E.
    destruct (DirectCommand c command regex) as [[b e] c1] eqn:HD.
    cbn [fst snd] in E. inversion E; subst.
    eapply DirectCommand_one_read; eauto.
Qed.

Lemma ack_ops_accept_their_acknowledgement_witness :
  let command := ("D " ++ quote ++ "See PC" ++ quote)%string in
  let reply := bytes_of_string ("D A" ++ CRLF) in
  let c := fresh [Delivers ms reply] in
  written (snd (SetMessage c "See PC")) = written c ++ [bytes_of_string (command ++ CRLF)] /\
  (carries "D" "A" reply <->
   SetMessage c "See PC" =
   (None, Conn.Build (now c + Z.of_N ms) [] (tl (wresults c))
                     (written c ++ [bytes_of_string (command ++ CRLF)]))).
Proof.
  intros command reply c.
  apply (ack_ops_accept_their_acknowledgement
           (fun c => SetMessage c "See PC") command "D" c ms reply []).
  - apply ack_SetMessage.
  - reflexivity.
  - reflexivity.
  - vm_compute. lia.
Defined.

(** ** SetTarget *)

Lemma append_empty (s : string) : (s ++ "")%string = s.
Proof. induction s; simpl; congruence. Qed.

(** *** X16: the lines of SetTarget, for every target *)

Lemma string_app_assoc (s1 s2 s3 : string) : ((s1 ++ s2) ++ s3 = s1 ++ s2 ++ s3)%string.
Proof. induction s1; simpl; congruence. Qed.

(** X16: SetTarget sends the target command, the upper tolerance command and
    the lower tolerance command in this order, each by a DirectCommand that
    waits for [A10 A], and it stops at the first of them that fails: what it
    returns is the error and the connection of the last command it sent,
    which it sent after every command before it was acknowledged, and which
    is the third when there is no error.  The lines written are those of the
    commands sent and no other.  The values have two digits after the point;
    the tolerance lines carry [%] instead of the unit when the tolerance is
    relative, the target line always carries the unit. *)
Theorem SetTarget_lines c target unit upperTolerance lowerTolerance relativeTolerance :
  let commands :=
    target_commands target unit upperTolerance lowerTolerance relativeTolerance in
  let r := SetTarget c target unit upperTolerance lowerTolerance relativeTolerance in
  exists k command prior,
    nth_error commands k = Some command /\
    acknowledged c (firstn k commands) prior /\
    r = (snd (fst (DirectCommand prior command a10Regex)),
         snd (DirectCommand prior command a10Regex)) /\
    (fst r = None -> k = 2%nat) /\
    written (snd r) =
      written c ++ firstn (S k) (target_lines target unit upperTolerance lowerTolerance
                                              relativeTolerance).
Proof.
  intros commands r. unfold r, commands, SetTarget, target_commands, target_lines.
  clear r commands.
  rewrite !append_empty. fold a10Regex.
  set (u := if relativeTolerance then "%"%string else unit).
  set (cmd1 := ("A10 0 " ++ Strconv.FormatFloat target 2 ++ " " ++ unit)%string).
  set (cmd2 := ("A10 1 " ++ Strconv.FormatFloat upperTolerance 2 ++ " " ++ u)%string).
  set (cmd3 := ("A10 2 " ++ Strconv.FormatFloat lowerTolerance 2 ++ " " ++ u)%string).
  assert (L1 : ("A10 0 " ++ Strconv.FormatFloat target 2 ++ " " ++ unit ++ CRLF
                = cmd1 ++ CRLF)%string).
  { unfold cmd1. now rewrite !string_app_assoc. }
  assert (L2 : ("A10 1 " ++ Strconv.FormatFloat upperTolerance 2 ++ " " ++ u ++ CRLF
                = cmd2 ++ CRLF)%string).
  { unfold cmd2. now rewrite !string_app_assoc. }
  assert (L3 : ("A10 2 " ++ Strconv.FormatFloat lowerTolerance 2 ++ " " ++ u ++ CRLF
                = cmd3 ++ CRLF)%string).
  { unfold cmd3. now rewrite !string_app_assoc. }
  rewrite L1, L2, L3.
  pose proof (DirectCommand_written c cmd1 a10Regex) as W1.
  destruct (DirectCommand c cmd1 a10Regex) as [[b1 [e1|]] c1] eqn:D1; cbn [snd] in W1.
  { exists 0%nat, cmd1, c. rewrite D1. cbn [fst snd firstn nth_error].
    repeat split; auto; try discriminate. constructor. }
  pose proof (DirectCommand_written c1 cmd2 a10Regex) as W2.
  destruct (DirectCommand c1 cmd2 a10Regex) as [[b2 [e2|]] c2] eqn:D2; cbn [snd] in W2.
  { exists 1%nat, cmd2, c1. rewrite D2. cbn [fst snd firstn nth_error].
    repeat split; auto; try discriminate.
    - econstructor; [exact D1|constructor].
    - rewrite W2, W1, <- app_assoc. reflexivity. }
  pose proof (DirectCommand_written c2 cmd3 a10Regex) as W3.
  destruct (DirectCommand c2 cmd3 a10Regex) as [[b3 e3] c3] eqn:D3; cbn [snd] in W3.
  exists 2%nat, cmd3, c2. rewrite D3. cbn [fst snd firstn nth_error].
  repeat split; auto.
  - econstructor; [exact D1|]. econstructor; [exact D2|constructor].
  - rewrite W3, W2, W1, <- !app_assoc. reflexivity.
Qed.

(** A line that refuses the target and would acknowledge the tolerances: the
    call ends with the first command's error and the tolerances are not
    sent. *)
Example SetTarget_stops_at_first_failure :
  SetTarget (fresh [Fails ms (errorString "unplugged"); says ms "A10 A"; says ms "A10 A"])
            (float_lit 125 (-1)) "g" (float_lit 1 (-1)) (float_lit 2 (-1)) true =
  (Some (errorString "unplugged"),
   Conn.Build 1000000 [says ms "A10 A"; says ms "A10 A"] []
              [bytes_of_string ("A10 0 12.50 g" ++ CRLF)]).
Proof. vm_compute. reflexivity. Qed.
